(** * Resource-config and scope resolution (atc/db/resource_config.go)

    A shallow embedding of the find-or-create engine for resource configs and
    resource config scopes.  The SQL statements the Go code issues through
    squirrel are interpreted over an explicit relational store; every call
    into the store may fail according to a fault schedule carried by the
    state, and every attempted call is logged.

    Modelling conventions.
    - Go [int] identities and Postgres timestamps are [Z].
    - A Go pointer or interface value that may be nil is an [option].
    - [error] results are the left summand of [error + A].
    - The ambient flag [atc.EnableGlobalResources] is an explicit argument.
    - [conn] and [lockFactory] are opaque capabilities that the code only
      copies from struct to struct; they are left out of the records.
    - [FOR UPDATE] row locks have no effect on a single sequential
      connection and are not represented.
    - [rows.Next()] is a fault point like every other call into the store,
      but the code reads only its boolean and never consults [rows.Err()]:
      a failure there is dropped and looks like "no row".
    - The schema lives outside this file; the tables carry the columns the
      statements name, the partial unique indexes appear as the conflict
      targets of the upserts, and foreign keys are not represented. *)

From Stdlib Require Import ZArith List String Bool Lia.
Import ListNotations.
Local Open Scope string_scope.
Local Open Scope list_scope.
Local Open Scope Z_scope.

Set Implicit Arguments.

(* ================================================================== *)
(** * Errors *)

Inductive error : Type :=
| BaseResourceTypeNotFoundError (Name : string)
| ErrResourceConfigAlreadyExists
| ErrResourceConfigDisappeared
| ErrResourceConfigParentDisappeared
| ErrResourceConfigHasNoType
| ErrNoRows                       (* sql.ErrNoRows *)
| SQLError (msg : string).        (* any other failure reported by the store *)

Definition error_eqb (a b : error) : bool :=
  match a, b with
  | BaseResourceTypeNotFoundError x, BaseResourceTypeNotFoundError y => String.eqb x y
  | ErrResourceConfigAlreadyExists, ErrResourceConfigAlreadyExists => true
  | ErrResourceConfigDisappeared, ErrResourceConfigDisappeared => true
  | ErrResourceConfigParentDisappeared, ErrResourceConfigParentDisappeared => true
  | ErrResourceConfigHasNoType, ErrResourceConfigHasNoType => true
  | ErrNoRows, ErrNoRows => true
  | SQLError x, SQLError y => String.eqb x y
  | _, _ => false
  end.

(* ================================================================== *)
(** * The persisted tables *)

Record BaseResourceTypeRow := {
  brt_id : Z;
  brt_name : string;
  brt_unique_version_history : bool
}.

Record ResourceCacheRow := {
  cache_id : Z;
  cache_resource_config_id : Z;
  cache_key : string
}.

Record ResourceConfigRow := {
  cfg_id : Z;
  cfg_last_referenced : Z;
  cfg_resource_cache_id : option Z;
  cfg_base_resource_type_id : option Z;
  cfg_source_hash : string
}.

Record ResourceConfigScopeRow := {
  row_id : Z;
  row_resource_id : option Z;
  row_resource_config_id : Z
}.

Record Tables := {
  base_resource_types : list BaseResourceTypeRow;
  resource_caches : list ResourceCacheRow;
  resource_configs : list ResourceConfigRow;
  resource_config_scopes : list ResourceConfigScopeRow
}.

Inductive Table : Type :=
| T_base_resource_types
| T_resource_caches
| T_resource_configs
| T_resource_config_scopes.

(** Statements attempted against the store, in the order they were issued. *)
Inductive Op : Type :=
| OpBegin
| OpCommit
| OpRollback
| OpSelect (t : Table)
| OpUpsert (t : Table)
| OpUpdate (t : Table)
| OpDelete (t : Table)
| OpRowsNext
| OpRowsScan
| OpRowsClose.

(** The state of one connection.  [tables] is what the connection currently
    sees; [open_tx] holds the snapshot to restore when the open transaction
    is rolled back.  Sequences are not transactional.  [faults] is consumed
    one entry per statement: [Some e] makes that statement fail with [e].
    [now] is what the SQL expression now() evaluates to, and
    [last_referenced_default] is the schema's default for the column
    resource_configs.last_referenced. *)
Record St := {
  tables : Tables;
  next_cache_id : Z;
  next_config_id : Z;
  next_scope_id : Z;
  open_tx : option Tables;
  faults : list (option error);
  oplog : list Op;
  now : Z;
  last_referenced_default : Z
}.

Definition set_tables (t : Tables) (s : St) : St :=
  {| tables := t; next_cache_id := next_cache_id s;
     next_config_id := next_config_id s; next_scope_id := next_scope_id s;
     open_tx := open_tx s; faults := faults s; oplog := oplog s; now := now s;
     last_referenced_default := last_referenced_default s |}.

Definition set_open_tx (o : option Tables) (s : St) : St :=
  {| tables := tables s; next_cache_id := next_cache_id s;
     next_config_id := next_config_id s; next_scope_id := next_scope_id s;
     open_tx := o; faults := faults s; oplog := oplog s; now := now s;
     last_referenced_default := last_referenced_default s |}.

Definition set_faults (f : list (option error)) (s : St) : St :=
  {| tables := tables s; next_cache_id := next_cache_id s;
     next_config_id := next_config_id s; next_scope_id := next_scope_id s;
     open_tx := open_tx s; faults := f; oplog := oplog s; now := now s;
     last_referenced_default := last_referenced_default s |}.

Definition log_op (o : Op) (s : St) : St :=
  {| tables := tables s; next_cache_id := next_cache_id s;
     next_config_id := next_config_id s; next_scope_id := next_scope_id s;
     open_tx := open_tx s; faults := faults s; oplog := oplog s ++ [o];
     now := now s; last_referenced_default := last_referenced_default s |}.

Definition set_scopes (l : list ResourceConfigScopeRow) (s : St) : St :=
  set_tables {| base_resource_types := base_resource_types (tables s);
                resource_caches := resource_caches (tables s);
                resource_configs := resource_configs (tables s);
                resource_config_scopes := l |} s.

Definition set_configs (l : list ResourceConfigRow) (s : St) : St :=
  set_tables {| base_resource_types := base_resource_types (tables s);
                resource_caches := resource_caches (tables s);
                resource_configs := l;
                resource_config_scopes := resource_config_scopes (tables s) |} s.

Definition set_caches (l : list ResourceCacheRow) (s : St) : St :=
  set_tables {| base_resource_types := base_resource_types (tables s);
                resource_caches := l;
                resource_configs := resource_configs (tables s);
                resource_config_scopes := resource_config_scopes (tables s) |} s.

Definition bump_scope_id (s : St) : St :=
  {| tables := tables s; next_cache_id := next_cache_id s;
     next_config_id := next_config_id s; next_scope_id := next_scope_id s + 1;
     open_tx := open_tx s; faults := faults s; oplog := oplog s; now := now s;
     last_referenced_default := last_referenced_default s |}.

Definition bump_config_id (s : St) : St :=
  {| tables := tables s; next_cache_id := next_cache_id s;
     next_config_id := next_config_id s + 1; next_scope_id := next_scope_id s;
     open_tx := open_tx s; faults := faults s; oplog := oplog s; now := now s;
     last_referenced_default := last_referenced_default s |}.

Definition bump_cache_id (s : St) : St :=
  {| tables := tables s; next_cache_id := next_cache_id s + 1;
     next_config_id := next_config_id s; next_scope_id := next_scope_id s;
     open_tx := open_tx s; faults := faults s; oplog := oplog s; now := now s;
     last_referenced_default := last_referenced_default s |}.

(* ================================================================== *)
(** * The store monad *)

Definition M (A : Type) : Type := St -> (error + A) * St.

Definition ret {A} (a : A) : M A := fun s => (inr a, s).

Definition fail {A} (e : error) : M A := fun s => (inl e, s).

Definition bind {A B} (m : M A) (k : A -> M B) : M B :=
  fun s => match m s with
           | (inl e, s') => (inl e, s')
           | (inr a, s') => k a s'
           end.

Notation "x <- m ;; k" := (bind m (fun x => k))
  (at level 61, m at next level, right associativity).
Notation "' pat <- m ;; k" := (bind m (fun x => match x with pat => k end))
  (at level 61, pat pattern, m at next level, right associativity).

(** One statement: it is logged, the head of the fault schedule is consumed
    and decides whether the statement fails.  An empty schedule means the
    store answers every statement. *)
Definition stmt (o : Op) : M unit :=
  fun s =>
    let s1 := set_faults (tl (faults s)) (log_op o s) in
    match hd None (faults s) with
    | Some e => (inl e, s1)
    | None => (inr tt, s1)
    end.

Definition get {A} (f : St -> A) : M A := fun s => (inr (f s), s).

Definition modify (f : St -> St) : M unit := fun s => (inr tt, f s).

(* ================================================================== *)
(** * Transactions *)

(** [conn.Begin()]. *)
Definition Begin : M unit :=
  _ <- stmt OpBegin ;;
  modify (fun s => set_open_tx (Some (tables s)) s).

(** [tx.Commit()]: a commit that reports an error has not made the
    transaction's writes durable. *)
Definition Commit : M unit :=
  fun s =>
    match stmt OpCommit s with
    | (inl e, s1) =>
        (inl e, match open_tx s1 with
                | Some snap => set_open_tx None (set_tables snap s1)
                | None => s1
                end)
    | (inr _, s1) => (inr tt, set_open_tx None s1)
    end.

(** [Rollback(tx)]: the helper discards the error of [tx.Rollback()]; on a
    transaction that is already finished it changes nothing. *)
Definition Rollback (s : St) : St :=
  match open_tx s with
  | Some snap => set_open_tx None (set_tables snap (log_op OpRollback s))
  | None => s
  end.

(** [defer Rollback(tx)] around a function body. *)
Definition with_deferred_Rollback {A} (body : M A) : M A :=
  fun s => let (r, s') := body s in (r, Rollback s').

(* ================================================================== *)
(** * Runtime objects *)

Record UsedBaseResourceType := {
  ID : Z;
  Name : string;
  UniqueVersionHistory : bool
}.

Record BaseResourceType := {
  brt_Name : string
}.

Record Resource := {
  Resource_ID : Z;
  Resource_Name : string
}.

(** [resourceConfig] and the resource cache that may have created it.  The
    Go values are built bottom-up by [findOrCreate], so the pointer graph is
    a finite tree. *)
Inductive resourceConfig : Type :=
  Build_resourceConfig
    (id : Z)
    (lastReferenced : Z)
    (createdByResourceCache : option UsedResourceCache)
    (createdByBaseResourceType : option UsedBaseResourceType)
with UsedResourceCache : Type :=
  Build_UsedResourceCache
    (cacheID : Z)
    (cacheResourceConfig : resourceConfig).

Definition rc_ID (r : resourceConfig) : Z :=
  match r with Build_resourceConfig i _ _ _ => i end.

Definition LastReferenced (r : resourceConfig) : Z :=
  match r with Build_resourceConfig _ l _ _ => l end.

Definition CreatedByResourceCache (r : resourceConfig) : option UsedResourceCache :=
  match r with Build_resourceConfig _ _ c _ => c end.

Definition CreatedByBaseResourceType (r : resourceConfig) : option UsedBaseResourceType :=
  match r with Build_resourceConfig _ _ _ b => b end.

Definition UsedResourceCache_ID (c : UsedResourceCache) : Z :=
  match c with Build_UsedResourceCache i _ => i end.

Definition UsedResourceCache_ResourceConfig (c : UsedResourceCache) : resourceConfig :=
  match c with Build_UsedResourceCache _ r => r end.

(** [OriginBaseResourceType]: [None] stands for the nil dereference the Go
    method runs into when neither origin field is set; otherwise the method
    returns a non-nil pointer. *)
Fixpoint OriginBaseResourceType (r : resourceConfig) : option UsedBaseResourceType :=
  match r with
  | Build_resourceConfig _ _ _ (Some brt) => Some brt
  | Build_resourceConfig _ _ (Some (Build_UsedResourceCache _ r')) None =>
      OriginBaseResourceType r'
  | Build_resourceConfig _ _ None None => None
  end.

Record resourceConfigScope := {
  scope_id : Z;
  scope_resource : option Resource;
  scope_resourceConfig : resourceConfig
}.

(* ================================================================== *)
(** * SQL statements on resource_config_scopes *)

Definition option_Z_eqb (a b : option Z) : bool :=
  match a, b with
  | Some x, Some y => Z.eqb x y
  | None, None => true
  | _, _ => false
  end.

(** The predicate squirrel builds from
    [sq.Eq{"resource_id": resourceID, "resource_config_id": id}]: a nil
    pointer becomes [resource_id IS NULL], a non-nil one [resource_id = $n]. *)
Definition scope_matches (resourceID : option Z) (configID : Z)
    (row : ResourceConfigScopeRow) : bool :=
  option_Z_eqb (row_resource_id row) resourceID
  && Z.eqb (row_resource_config_id row) configID.

Definition owned_by (resourceID : Z) (row : ResourceConfigScopeRow) : bool :=
  option_Z_eqb (row_resource_id row) (Some resourceID).

(** [SELECT id FROM resource_config_scopes WHERE ...] through [Query()]. *)
Definition query_scopes (resourceID : option Z) (configID : Z)
    : M (list ResourceConfigScopeRow) :=
  _ <- stmt (OpSelect T_resource_config_scopes) ;;
  get (fun s => filter (scope_matches resourceID configID)
                       (resource_config_scopes (tables s))).

(** [rows.Next()]: false when the result has no row, and also when fetching
    the row failed; the error stays in [rows.Err()], which the caller below
    never reads. *)
Definition rows_Next (rows : list ResourceConfigScopeRow)
    : M (option ResourceConfigScopeRow) :=
  fun s =>
    match stmt OpRowsNext s with
    | (inl _, s') => (inr None, s')
    | (inr _, s') => (inr (hd_error rows), s')
    end.

(** [rows.Scan(&scopeID)] on the current row. *)
Definition rows_Scan (row : ResourceConfigScopeRow) : M Z :=
  _ <- stmt OpRowsScan ;; ret (row_id row).

(** [rows.Close()]. *)
Definition rows_Close : M unit := stmt OpRowsClose.

(** [DELETE FROM resource_config_scopes WHERE resource_id = $1] through
    [Exec()]. *)
Definition delete_scopes_of (resourceID : Z) : M unit :=
  _ <- stmt (OpDelete T_resource_config_scopes) ;;
  modify (fun s => set_scopes
                     (filter (fun row => negb (owned_by resourceID row))
                             (resource_config_scopes (tables s))) s).

(** [INSERT ... ON CONFLICT (...) DO UPDATE SET ... RETURNING id]: when a row
    with the conflict key exists, the update rewrites the key columns with
    the values they have and that row's id is returned; otherwise a row with
    the next id of the sequence is added.  [resourceID = Some _] is the
    statement with conflict target (resource_id, resource_config_id) WHERE
    resource_id IS NOT NULL, [None] the one with target (resource_config_id)
    WHERE resource_id IS NULL. *)
Definition upsert_scope (resourceID : option Z) (configID : Z) : M Z :=
  _ <- stmt (OpUpsert T_resource_config_scopes) ;;
  fun s =>
    match find (scope_matches resourceID configID)
               (resource_config_scopes (tables s)) with
    | Some row => (inr (row_id row), s)
    | None =>
        let i := next_scope_id s in
        (inr i,
         bump_scope_id
           (set_scopes (resource_config_scopes (tables s) ++
                        [{| row_id := i; row_resource_id := resourceID;
                            row_resource_config_id := configID |}]) s))
    end.

(* ================================================================== *)
(** * findOrCreateResourceConfigScope *)

Definition findOrCreateResourceConfigScope
    (EnableGlobalResources : bool)
    (resourceConfig_ : resourceConfig)
    (resource : option Resource) : M resourceConfigScope :=
  let unique :=
    match resource with
    | Some _ =>
        if negb EnableGlobalResources then true
        else match CreatedByBaseResourceType resourceConfig_ with
             | Some brt => UniqueVersionHistory brt
             | None => false
             end
    | None => false
    end in
  let uniqueResource := if unique then resource else None in
  let resourceID :=
    if unique then option_map Resource_ID resource else None in
  rows <- query_scopes resourceID (rc_ID resourceConfig_) ;;
  next <- rows_Next rows ;;
  scopeID <-
    match next with
    | Some row =>
        scopeID <- rows_Scan row ;;
        _ <- rows_Close ;;
        ret scopeID
    | None =>
        match uniqueResource with
        | Some res =>
            _ <- delete_scopes_of (Resource_ID res) ;;
            upsert_scope (Some (Resource_ID res)) (rc_ID resourceConfig_)
        | None =>
            upsert_scope None (rc_ID resourceConfig_)
        end
    end ;;
  ret {| scope_id := scopeID;
         scope_resource := uniqueResource;
         scope_resourceConfig := resourceConfig_ |}.

(** [resourceConfig.FindOrCreateScope]. *)
Definition FindOrCreateScope (EnableGlobalResources : bool)
    (r : resourceConfig) (resource : option Resource) : M resourceConfigScope :=
  fun s =>
    match Begin s with
    | (inl err, s1) => (inl err, s1)
    | (inr _, s1) =>
        with_deferred_Rollback
          (scope <- findOrCreateResourceConfigScope
                      EnableGlobalResources r resource ;;
           _ <- Commit ;;
           ret scope) s1
    end.

(* ================================================================== *)
(** * SQL statements on resource_configs *)

(** The two origin columns, addressed by the name the Go code passes around
    as a string.  Any other name (in particular the empty string left when
    the descriptor has no origin) is not a column. *)
Definition parent_column (name : string)
    : option (ResourceConfigRow -> option Z) :=
  if String.eqb name "resource_cache_id" then Some cfg_resource_cache_id
  else if String.eqb name "base_resource_type_id"
       then Some cfg_base_resource_type_id
       else None.

Definition config_matches (col : ResourceConfigRow -> option Z)
    (parentID : Z) (hash : string) (row : ResourceConfigRow) : bool :=
  option_Z_eqb (col row) (Some parentID)
  && String.eqb (cfg_source_hash row) hash.

(** [SELECT id, last_referenced FROM resource_configs WHERE <col> = $1 AND
    source_hash = $2 FOR UPDATE] through [QueryRow().Scan(..)]. *)
Definition select_config (parentColumnName : string) (parentID : Z)
    (hash : string) : M (Z * Z) :=
  _ <- stmt (OpSelect T_resource_configs) ;;
  match parent_column parentColumnName with
  | None => fail (SQLError "column does not exist")
  | Some col =>
      fun s =>
        match find (config_matches col parentID hash)
                   (resource_configs (tables s)) with
        | Some row => (inr (cfg_id row, cfg_last_referenced row), s)
        | None => (inl ErrNoRows, s)
        end
  end.

Definition new_config_row (parentColumnName : string) (i lr parentID : Z)
    (hash : string) : ResourceConfigRow :=
  {| cfg_id := i;
     cfg_last_referenced := lr;
     cfg_resource_cache_id :=
       if String.eqb parentColumnName "resource_cache_id"
       then Some parentID else None;
     cfg_base_resource_type_id :=
       if String.eqb parentColumnName "base_resource_type_id"
       then Some parentID else None;
     cfg_source_hash := hash |}.

(** [INSERT INTO resource_configs (<col>, source_hash) ... ON CONFLICT
    (<col>, source_hash) DO UPDATE SET ... RETURNING id, last_referenced]. *)
Definition upsert_config (parentColumnName : string) (parentID : Z)
    (hash : string) : M (Z * Z) :=
  _ <- stmt (OpUpsert T_resource_configs) ;;
  match parent_column parentColumnName with
  | None => fail (SQLError "column does not exist")
  | Some col =>
      fun s =>
        match find (config_matches col parentID hash)
                   (resource_configs (tables s)) with
        | Some row => (inr (cfg_id row, cfg_last_referenced row), s)
        | None =>
            let i := next_config_id s in
            let lr := last_referenced_default s in
            (inr (i, lr),
             bump_config_id
               (set_configs (resource_configs (tables s) ++
                             [new_config_row parentColumnName i lr
                                parentID hash]) s))
        end
  end.

Definition touch (t : Z) (i : Z) (row : ResourceConfigRow) : ResourceConfigRow :=
  if Z.eqb (cfg_id row) i
  then {| cfg_id := cfg_id row;
          cfg_last_referenced := t;
          cfg_resource_cache_id := cfg_resource_cache_id row;
          cfg_base_resource_type_id := cfg_base_resource_type_id row;
          cfg_source_hash := cfg_source_hash row |}
  else row.

(** [UPDATE resource_configs SET last_referenced = now() WHERE id = $1
    RETURNING last_referenced] through [QueryRow().Scan(..)]: without a
    matching row the scan reports [sql.ErrNoRows]. *)
Definition update_last_referenced (i : Z) : M Z :=
  _ <- stmt (OpUpdate T_resource_configs) ;;
  fun s =>
    if existsb (fun row => Z.eqb (cfg_id row) i) (resource_configs (tables s))
    then (inr (now s),
          set_configs (map (touch (now s) i) (resource_configs (tables s))) s)
    else (inl ErrNoRows, s).

Definition set_id_lastReferenced (r : resourceConfig) (i lr : Z) : resourceConfig :=
  match r with
  | Build_resourceConfig _ _ c b => Build_resourceConfig i lr c b
  end.

Definition set_createdByBaseResourceType (r : resourceConfig)
    (b : option UsedBaseResourceType) : resourceConfig :=
  match r with
  | Build_resourceConfig i lr c _ => Build_resourceConfig i lr c b
  end.

(** [resourceConfig.updateLastReferenced]: the receiver is mutated through
    the pointer; here the updated receiver is the result. *)
Definition updateLastReferenced (r : resourceConfig) : M resourceConfig :=
  lr <- update_last_referenced (rc_ID r) ;;
  ret (set_id_lastReferenced r (rc_ID r) lr).

(* ================================================================== *)
(** * Descriptors and config resolution *)

(** Modelled from the spec: [BaseResourceType.Find] is defined outside this
    file; the spec describes it as a lookup by name that reports
    found / not found.  The row found supplies the identity and the
    unique-version-history flag. *)
Definition BaseResourceType_Find (b : BaseResourceType)
    : M (option UsedBaseResourceType) :=
  _ <- stmt (OpSelect T_base_resource_types) ;;
  get (fun s =>
         match find (fun row => String.eqb (brt_name row) (brt_Name b))
                    (base_resource_types (tables s)) with
         | Some row => Some {| ID := brt_id row;
                               Name := brt_Name b;
                               UniqueVersionHistory :=
                                 brt_unique_version_history row |}
         | None => None
         end).

Definition cache_matches (configID : Z) (key : string)
    (row : ResourceCacheRow) : bool :=
  Z.eqb (cache_resource_config_id row) configID
  && String.eqb (cache_key row) key.

(** Modelled from the spec: the find-or-create of a resource cache row is
    defined outside this file.  The spec keys a cache by its own config;
    [key] stands for whatever else identifies the cache (version, params). *)
Definition find_or_create_cache_row (configID : Z) (key : string) : M Z :=
  _ <- stmt (OpSelect T_resource_caches) ;;
  found <- get (fun s => find (cache_matches configID key)
                              (resource_caches (tables s))) ;;
  match found with
  | Some row => ret (cache_id row)
  | None =>
      _ <- stmt (OpUpsert T_resource_caches) ;;
      fun s =>
        match find (cache_matches configID key)
                   (resource_caches (tables s)) with
        | Some row => (inr (cache_id row), s)
        | None =>
            let i := next_cache_id s in
            (inr i,
             bump_cache_id
               (set_caches (resource_caches (tables s) ++
                            [{| cache_id := i;
                                cache_resource_config_id := configID;
                                cache_key := key |}]) s))
        end
  end.

Section Resolution.

(** [atc.Source] and [mapHash] are declared outside this file. *)
Variable Source : Type.
Variable mapHash : Source -> string.

Inductive ResourceConfigDescriptor : Type :=
  Build_ResourceConfigDescriptor
    (CreatedByResourceCache_ : option ResourceCacheDescriptor)
    (CreatedByBaseResourceType_ : option BaseResourceType)
    (Source_ : Source)
with ResourceCacheDescriptor : Type :=
  Build_ResourceCacheDescriptor
    (ResourceConfigDescriptor_ : ResourceConfigDescriptor)
    (Key_ : string).

(** [ResourceConfigDescriptor.findWithParentID]: the result pairs the
    boolean with the (possibly updated) [rc] the Go code writes through
    the pointer. *)
Definition findWithParentID (source : Source) (rc : resourceConfig)
    (parentColumnName : string) (parentID : Z)
    : M (bool * resourceConfig) :=
  fun s =>
    match select_config parentColumnName parentID (mapHash source) s with
    | (inl err, s') =>
        if error_eqb err ErrNoRows then (inr (false, rc), s')
        else (inl err, s')
    | (inr (i, lr), s') => (inr (true, set_id_lastReferenced rc i lr), s')
    end.

(** [ResourceConfigDescriptor.findOrCreate], together with the
    find-or-create of the resource cache it recurses through.

    Modelled from the spec: [ResourceCacheDescriptor.findOrCreate] is
    defined outside this file; following the spec it first resolves the
    cache's own config with this same engine and then finds or creates
    the cache row. *)
Fixpoint findOrCreate (r : ResourceConfigDescriptor) : M resourceConfig :=
  match r with
  | Build_ResourceConfigDescriptor cache brt source =>
      let rc := Build_resourceConfig 0 0 None None in
      '(rc, parentID, parentColumnName) <-
        match cache with
        | Some c =>
            resourceCache <- ResourceCacheDescriptor_findOrCreate c ;;
            ret (Build_resourceConfig 0 0 (Some resourceCache) None,
                 UsedResourceCache_ID resourceCache,
                 "resource_cache_id")
        | None => ret (rc, 0, "")
        end ;;
      '(rc, parentID, parentColumnName) <-
        match brt with
        | Some b =>
            found <- BaseResourceType_Find b ;;
            match found with
            | None => fail (BaseResourceTypeNotFoundError (brt_Name b))
            | Some used =>
                ret (set_createdByBaseResourceType rc (Some used),
                     ID used,
                     "base_resource_type_id")
            end
        | None => ret (rc, parentID, parentColumnName)
        end ;;
      '(found, rc) <- findWithParentID source rc parentColumnName parentID ;;
      if found : bool then ret rc
      else
        let hash := mapHash source in
        '(i, lr) <- upsert_config parentColumnName parentID hash ;;
        ret (set_id_lastReferenced rc i lr)
  end
with ResourceCacheDescriptor_findOrCreate (c : ResourceCacheDescriptor)
    : M UsedResourceCache :=
  match c with
  | Build_ResourceCacheDescriptor d key =>
      resourceConfig_ <- findOrCreate d ;;
      i <- find_or_create_cache_row (rc_ID resourceConfig_) key ;;
      ret (Build_UsedResourceCache i resourceConfig_)
  end.

(** Calling config resolution [n] times in a row on one connection,
    collecting every result. *)
Fixpoint findOrCreate_times (n : nat) (r : ResourceConfigDescriptor) (s : St)
    : list (error + resourceConfig) * St :=
  match n with
  | O => ([], s)
  | S n' =>
      let (res, s1) := findOrCreate r s in
      let (rest, s2) := findOrCreate_times n' r s1 in
      (res :: rest, s2)
  end.

(** The part of [findOrCreate] that follows the resolution of a resource
    cache origin, as a function of what that first part leaves in [rc],
    [parentID] and [parentColumnName]. *)
Definition findOrCreate_tail (brt : option BaseResourceType)
    (source : Source) (x : resourceConfig * Z * string) : M resourceConfig :=
  let '(rc, parentID, parentColumnName) := x in
  '(rc, parentID, parentColumnName) <-
    match brt with
    | Some b =>
        found <- BaseResourceType_Find b ;;
        match found with
        | None => fail (BaseResourceTypeNotFoundError (brt_Name b))
        | Some used =>
            ret (set_createdByBaseResourceType rc (Some used),
                 ID used,
                 "base_resource_type_id")
        end
    | None => ret (rc, parentID, parentColumnName)
    end ;;
  '(found, rc) <- findWithParentID source rc parentColumnName parentID ;;
  if found : bool then ret rc
  else
    let hash := mapHash source in
    '(i, lr) <- upsert_config parentColumnName parentID hash ;;
    ret (set_id_lastReferenced rc i lr).

(** The base resource type a descriptor's origin chain leads to, read the
way [findOrCreate] reads a descriptor: a base resource type given at a
level is that level's parent; otherwise the chain continues through the
resource cache. *)
Fixpoint descriptor_root (d : ResourceConfigDescriptor)
    : option BaseResourceType :=
  match d with
  | Build_ResourceConfigDescriptor _ (Some b) _ => Some b
  | Build_ResourceConfigDescriptor
      (Some (Build_ResourceCacheDescriptor d' _)) None _ => descriptor_root d'
  | Build_ResourceConfigDescriptor None None _ => None
  end.

(** Every level of the chain names exactly one origin. *)
Fixpoint single_origin (d : ResourceConfigDescriptor) : bool :=
  match d with
  | Build_ResourceConfigDescriptor None (Some _) _ => true
  | Build_ResourceConfigDescriptor
      (Some (Build_ResourceCacheDescriptor d' _)) None _ => single_origin d'
  | _ => false
  end.

End Resolution.

(* ================================================================== *)
(** * Specification-side notions *)

(** The origin chain as the data model describes it: a config created
    directly by a base resource type has that type as its root; a config
    created by a resource cache has the root of the cache's own config. *)
Inductive bottoms_out_at : resourceConfig -> UsedBaseResourceType -> Prop :=
| bottoms_out_direct : forall i lr cache B,
    bottoms_out_at (Build_resourceConfig i lr cache (Some B)) B
| bottoms_out_via_cache : forall i lr ci r' B,
    bottoms_out_at r' B ->
    bottoms_out_at
      (Build_resourceConfig i lr (Some (Build_UsedResourceCache ci r')) None) B.

Definition scopes (s : St) : list ResourceConfigScopeRow :=
  resource_config_scopes (tables s).

Definition configs (s : St) : list ResourceConfigRow :=
  resource_configs (tables s).

(** Rows of resource_config_scopes owned by a resource. *)
Definition owned_rows (resourceID : Z) (l : list ResourceConfigScopeRow)
    : list ResourceConfigScopeRow :=
  filter (owned_by resourceID) l.

Definition at_most_one_owned (l : list ResourceConfigScopeRow) : Prop :=
  forall resourceID, (List.length (owned_rows resourceID l) <= 1)%nat.

(** The owner the scope resolver decides on ([uniqueResource] in the code):
    the resource itself when its scope is to be private, nothing when the
    scope is to be shared. *)
Definition uniqueResource_of (EnableGlobalResources : bool)
    (r : resourceConfig) (resource : option Resource) : option Resource :=
  match resource with
  | Some res =>
      if negb EnableGlobalResources then Some res
      else match CreatedByBaseResourceType r with
           | Some brt => if UniqueVersionHistory brt then Some res else None
           | None => None
           end
  | None => None
  end.

(** The row of resource_config_scopes a resolved scope stands for. *)
Definition scope_row (scope : resourceConfigScope) : ResourceConfigScopeRow :=
  {| row_id := scope_id scope;
     row_resource_id := option_map Resource_ID (scope_resource scope);
     row_resource_config_id := rc_ID (scope_resourceConfig scope) |}.

(** Primary key and sequence discipline of resource_config_scopes. *)
Definition scope_ids_wf (s : St) : Prop :=
  NoDup (map row_id (scopes s))
  /\ forall row, In row (scopes s) -> row_id row < next_scope_id s.

Definition is_delete (o : Op) : bool :=
  match o with OpDelete _ => true | _ => false end.

(** Statements that belong to scope resolution inside a transaction. *)
Definition is_scope_stmt (o : Op) : bool :=
  match o with
  | OpSelect T_resource_config_scopes
  | OpUpsert T_resource_config_scopes
  | OpDelete T_resource_config_scopes
  | OpRowsNext | OpRowsScan | OpRowsClose => true
  | _ => false
  end.

(** Statements that origin or config resolution would issue. *)
Definition is_config_stmt (o : Op) : bool :=
  match o with
  | OpSelect T_base_resource_types | OpSelect T_resource_caches
  | OpSelect T_resource_configs | OpUpsert T_resource_caches
  | OpUpsert T_resource_configs => true
  | _ => false
  end.

(** [e] is the first fault of the schedule [fs], and [rest] is what remains
    of the schedule after it. *)
Definition first_fault (fs : list (option error)) (e : error)
    (rest : list (option error)) : Prop :=
  exists pre, fs = pre ++ Some e :: rest /\ Forall (fun f => f = None) pre.

(** No fault fired while the schedule went from [fs] to [rest]. *)
Definition no_fault_fired (fs rest : list (option error)) : Prop :=
  exists pre, fs = pre ++ rest /\ Forall (fun f => f = None) pre.

(** Both growing tables only gained rows at the end. *)
Definition extends (t1 t2 : Tables) : Prop :=
  base_resource_types t2 = base_resource_types t1
  /\ (exists l, resource_caches t2 = resource_caches t1 ++ l)
  /\ (exists l, resource_configs t2 = resource_configs t1 ++ l).

(** The connection right after a successful [conn.Begin()]. *)
Definition begun (s : St) : St :=
  set_open_tx (Some (tables s))
    (set_faults (tl (faults s)) (log_op OpBegin s)).

(** The connection right after the COMMIT statement was sent. *)
Definition after_commit_stmt (s : St) : St :=
  set_faults (tl (faults s)) (log_op OpCommit s).

(** What config resolution may do to a connection: base resource types
    and scopes stay as they are, caches and configs only gain rows at the
    end, the transaction stays the caller's, and every statement issued is
    a select or an upsert of origin or config resolution. *)
Definition config_frame (s s' : St) : Prop :=
  base_resource_types (tables s') = base_resource_types (tables s)
  /\ resource_config_scopes (tables s') = resource_config_scopes (tables s)
  /\ (exists l, resource_caches (tables s') = resource_caches (tables s) ++ l)
  /\ (exists l, resource_configs (tables s') = resource_configs (tables s) ++ l)
  /\ open_tx s' = open_tx s
  /\ now s' = now s
  /\ last_referenced_default s' = last_referenced_default s
  /\ next_scope_id s' = next_scope_id s
  /\ exists ops, oplog s' = oplog s ++ ops
                 /\ forallb is_config_stmt ops = true.

(** Every run of [m], failed or not, relates its two states by [R]. *)
Definition keeps {A} (R : St -> St -> Prop) (m : M A) : Prop :=
  forall s res s', m s = (res, s') -> R s s'.

(** The base resource type a lookup by name finds in the tables. *)
Definition lookup_base_resource_type (name : string) (t : Tables)
    : option UsedBaseResourceType :=
  match find (fun row => String.eqb (brt_name row) name)
             (base_resource_types t) with
  | Some row => Some {| ID := brt_id row; Name := name;
                        UniqueVersionHistory := brt_unique_version_history row |}
  | None => None
  end.

(** The two partial uniqueness constraints of resource_config_scopes: at
    most one row per (resource, config) pair and at most one row without a
    resource per config. *)
Definition scope_keys_unique (l : list ResourceConfigScopeRow) : Prop :=
  forall rid c, (List.length (filter (scope_matches rid c) l) <= 1)%nat.

(** The two uniqueness constraints of resource_configs: at most one row
    per (parent column, parent id, source hash). *)
Definition config_keys_unique (l : list ResourceConfigRow) : Prop :=
  forall name col pid hash,
    parent_column name = Some col ->
    (List.length (filter (config_matches col pid hash) l) <= 1)%nat.

(** Primary key and sequence discipline of resource_configs. *)
Definition config_ids_wf (s : St) : Prop :=
  NoDup (map cfg_id (resource_configs (tables s)))
  /\ forall row, In row (resource_configs (tables s)) ->
                 cfg_id row < next_config_id s.

(** [BaseResourceTypeNotFoundError.Error]. *)
Definition BaseResourceTypeNotFoundError_Error (Name : string) : string :=
  "base resource type not found: " ++ Name.

(* ================================================================== *)
(** * Example data *)

Module Ex.

Definition git : UsedBaseResourceType :=
  {| ID := 1; Name := "git"; UniqueVersionHistory := false |}.

Definition time : UsedBaseResourceType :=
  {| ID := 2; Name := "time"; UniqueVersionHistory := true |}.

Definition brt_rows : list BaseResourceTypeRow :=
  [ {| brt_id := 1; brt_name := "git"; brt_unique_version_history := false |};
    {| brt_id := 2; brt_name := "time"; brt_unique_version_history := true |} ].

Definition store (cfgs : list ResourceConfigRow)
    (caches : list ResourceCacheRow)
    (scs : list ResourceConfigScopeRow)
    (fs : list (option error)) : St :=
  {| tables := {| base_resource_types := brt_rows;
                  resource_caches := caches;
                  resource_configs := cfgs;
                  resource_config_scopes := scs |};
     next_cache_id := 10; next_config_id := 10; next_scope_id := 10;
     open_tx := None; faults := fs; oplog := []; now := 500;
     last_referenced_default := 0 |}.

Definition empty_store : St := store [] [] [] [].

(** A config created directly by the base type "time". *)
Definition time_config : resourceConfig :=
  Build_resourceConfig 10 0 None (Some time).

(** A config created directly by the base type "git". *)
Definition git_config : resourceConfig :=
  Build_resourceConfig 11 0 None (Some git).

(** A config of a custom type: created by a resource cache whose own
    config was created by "time". *)
Definition custom_config : resourceConfig :=
  Build_resourceConfig 11 0
    (Some (Build_UsedResourceCache 10 time_config)) None.

Definition time_descriptor : ResourceConfigDescriptor string :=
  Build_ResourceConfigDescriptor None (Some {| brt_Name := "time" |})
    "interval: 1m".

Definition custom_descriptor : ResourceConfigDescriptor string :=
  Build_ResourceConfigDescriptor
    (Some (Build_ResourceCacheDescriptor time_descriptor "v1"))
    None "uri: example".

Definition unknown_descriptor : ResourceConfigDescriptor string :=
  Build_ResourceConfigDescriptor None (Some {| brt_Name := "svn" |})
    "uri: example".

Definition hash (src : string) : string := src.

Definition res_a : Resource := {| Resource_ID := 1; Resource_Name := "a" |}.
Definition res_b : Resource := {| Resource_ID := 2; Resource_Name := "b" |}.

(** The store after resolving [custom_descriptor] from scratch. *)
Definition custom_store : St :=
  snd (findOrCreate hash custom_descriptor empty_store).

Definition with_faults (fs : list (option error)) (s : St) : St :=
  set_faults fs s.

End Ex.

Unset Implicit Arguments.

(* ================================================================== *)
(** * Basic facts about the store monad *)

Lemma bind_inr A B (m : M A) (k : A -> M B) s b s' :
  bind m k s = (inr b, s') ->
  exists a s1, m s = (inr a, s1) /\ k a s1 = (inr b, s').
Proof.
  unfold bind. destruct (m s) as [[e|a] s1]; intros H.
  - discriminate.
  - now exists a, s1.
Qed.

Lemma bind_inl A B (m : M A) (k : A -> M B) s e s' :
  bind m k s = (inl e, s') ->
  m s = (inl e, s') \/ exists a s1, m s = (inr a, s1) /\ k a s1 = (inl e, s').
Proof.
  unfold bind. destruct (m s) as [[e0|a] s1]; intros H.
  - left. inversion H; subst. reflexivity.
  - right. now exists a, s1.
Qed.

Lemma stmt_cases o s :
  (exists e, hd None (faults s) = Some e
     /\ stmt o s = (inl e, set_faults (tl (faults s)) (log_op o s)))
  \/ (hd None (faults s) = None
     /\ stmt o s = (inr tt, set_faults (tl (faults s)) (log_op o s))).
Proof.
  unfold stmt. simpl. destruct (hd None (faults s)) as [e|].
  - left. eauto.
  - right. auto.
Qed.

(* ================================================================== *)
(** * Lists and rows *)

Lemma option_Z_eqb_eq a b : option_Z_eqb a b = true <-> a = b.
Proof.
  destruct a as [x|], b as [y|]; simpl; split; intros H;
    try discriminate; try reflexivity.
  - apply Z.eqb_eq in H. now subst.
  - inversion H. apply Z.eqb_refl.
Qed.

Lemma scope_matches_true rid c row :
  scope_matches rid c row = true <->
  row_resource_id row = rid /\ row_resource_config_id row = c.
Proof.
  unfold scope_matches. rewrite andb_true_iff, option_Z_eqb_eq, Z.eqb_eq.
  tauto.
Qed.

Lemma scope_matches_row rid c row :
  scope_matches rid c row = true ->
  row = {| row_id := row_id row; row_resource_id := rid;
           row_resource_config_id := c |}.
Proof.
  intros H. apply scope_matches_true in H. destruct H as [H1 H2].
  destruct row; simpl in *. now subst.
Qed.

Lemma filter_nil_find_none A (p : A -> bool) l :
  filter p l = [] -> find p l = None.
Proof.
  induction l as [|x l IH]; simpl; [reflexivity|].
  destruct (p x); [discriminate | exact IH].
Qed.

Lemma find_none_filter_nil A (p : A -> bool) l :
  find p l = None -> filter p l = [].
Proof.
  induction l as [|x l IH]; simpl; [reflexivity|].
  destruct (p x); [discriminate | exact IH].
Qed.

Lemma find_some_filter_head A (p : A -> bool) l x :
  find p l = Some x -> exists t, filter p l = x :: t.
Proof.
  induction l as [|y l IH]; simpl; [discriminate|].
  destruct (p y) eqn:E.
  - intros H. inversion H; subst. eauto.
  - exact IH.
Qed.

Lemma filter_cons_head A (p : A -> bool) l x t :
  filter p l = x :: t -> In x l /\ p x = true.
Proof.
  intros H. apply filter_In. rewrite H. now left.
Qed.

Lemma find_after_delete rid c l :
  find (scope_matches (Some rid) c)
       (filter (fun row => negb (owned_by rid row)) l) = None.
Proof.
  destruct (find _ _) as [row|] eqn:H; [|reflexivity].
  apply find_some in H. destruct H as [Hin Hm].
  apply filter_In in Hin. destruct Hin as [_ Hn].
  apply scope_matches_true in Hm. destruct Hm as [Hm _].
  unfold owned_by in Hn. rewrite Hm in Hn. simpl in Hn.
  rewrite Z.eqb_refl in Hn. discriminate.
Qed.

Lemma owned_rows_after_delete rid l :
  owned_rows rid (filter (fun row => negb (owned_by rid row)) l) = [].
Proof.
  unfold owned_rows. induction l as [|x l IH]; simpl; [reflexivity|].
  destruct (owned_by rid x) eqn:E; simpl; [exact IH|].
  rewrite E. exact IH.
Qed.

Lemma owned_rows_other_delete rid other l :
  rid <> other ->
  owned_rows rid (filter (fun row => negb (owned_by other row)) l)
  = owned_rows rid l.
Proof.
  intros Hne. unfold owned_rows. induction l as [|x l IH]; simpl; [reflexivity|].
  destruct (owned_by other x) eqn:E; simpl.
  - destruct (owned_by rid x) eqn:E'; [|exact IH].
    exfalso. unfold owned_by in E, E'.
    apply option_Z_eqb_eq in E. apply option_Z_eqb_eq in E'.
    rewrite E in E'. inversion E'. congruence.
  - destruct (owned_by rid x); [f_equal|]; exact IH.
Qed.

Lemma owned_rows_app rid l1 l2 :
  owned_rows rid (l1 ++ l2) = owned_rows rid l1 ++ owned_rows rid l2.
Proof. unfold owned_rows. apply filter_app. Qed.

Lemma length_filter_le A (p : A -> bool) l :
  (List.length (filter p l) <= List.length l)%nat.
Proof.
  induction l as [|x l IH]; simpl; [lia|].
  destruct (p x); simpl; lia.
Qed.

Lemma owned_rows_delete_le rid other l :
  (List.length (owned_rows rid (filter (fun row => negb (owned_by other row)) l))
   <= List.length (owned_rows rid l))%nat.
Proof.
  destruct (Z.eq_dec rid other) as [->|Hne].
  - rewrite owned_rows_after_delete. simpl. lia.
  - rewrite owned_rows_other_delete by exact Hne. lia.
Qed.

Lemma NoDup_map_filter A B (f : A -> B) (p : A -> bool) l :
  NoDup (map f l) -> NoDup (map f (filter p l)).
Proof.
  induction l as [|x l IH]; simpl; intros H; [constructor|].
  inversion H as [|y ys Hnin Hnd]; subst.
  destruct (p x); simpl; [|auto].
  constructor; [|auto].
  intros Hin. apply Hnin. apply in_map_iff in Hin.
  destruct Hin as (z & Hz & Hzin). apply filter_In in Hzin.
  apply in_map_iff. exists z. tauto.
Qed.

Lemma NoDup_map_same A B (f : A -> B) l x y :
  NoDup (map f l) -> In x l -> In y l -> f x = f y -> x = y.
Proof.
  induction l as [|z l IH]; simpl; intros Hnd Hx Hy Hf; [contradiction|].
  inversion Hnd as [|w ws Hnin Hnd']; subst.
  destruct Hx as [->|Hx], Hy as [->|Hy]; auto.
  - exfalso. apply Hnin. rewrite Hf. now apply in_map.
  - exfalso. apply Hnin. rewrite <- Hf. now apply in_map.
Qed.

(* ================================================================== *)
(** * Fault schedules *)

Lemma no_fault_fired_refl fs : no_fault_fired fs fs.
Proof. exists []. split; [reflexivity | constructor]. Qed.

Lemma no_fault_fired_step fs rest :
  hd None fs = None -> no_fault_fired (tl fs) rest -> no_fault_fired fs rest.
Proof.
  intros Hhd (pre & Heq & Hall). destruct fs as [|f fs]; simpl in *.
  - exists pre. auto.
  - subst f. exists (None :: pre). split; [now rewrite Heq|].
    constructor; auto.
Qed.

Lemma first_fault_here fs e :
  hd None fs = Some e -> first_fault fs e (tl fs).
Proof.
  intros Hhd. destruct fs as [|f fs]; simpl in *; [discriminate|].
  subst f. exists []. split; [reflexivity | constructor].
Qed.

Lemma first_fault_step fs e rest :
  hd None fs = None -> first_fault (tl fs) e rest -> first_fault fs e rest.
Proof.
  intros Hhd (pre & Heq & Hall). destruct fs as [|f fs]; simpl in *.
  - destruct pre; discriminate.
  - subst f. exists (None :: pre). split; [now rewrite Heq|].
    constructor; auto.
Qed.

Lemma no_fault_fired_trans a b c :
  no_fault_fired a b -> no_fault_fired b c -> no_fault_fired a c.
Proof.
  intros (p1 & H1 & A1) (p2 & H2 & A2). exists (p1 ++ p2). split.
  - now rewrite H1, H2, app_assoc.
  - apply Forall_app; auto.
Qed.

Lemma first_fault_after a b e c :
  no_fault_fired a b -> first_fault b e c -> first_fault a e c.
Proof.
  intros (p1 & H1 & A1) (p2 & H2 & A2). exists (p1 ++ p2). split.
  - now rewrite H1, H2, app_assoc.
  - apply Forall_app; auto.
Qed.

Lemma no_fault_fired_nil rest : no_fault_fired [] rest -> rest = [].
Proof.
  intros (pre & H & _). destruct pre; simpl in H; [auto | discriminate].
Qed.

Lemma first_fault_nil e rest : ~ first_fault [] e rest.
Proof. intros (pre & H & _). destruct pre; discriminate. Qed.

Ltac solve_faults :=
  cbn in *;
  repeat first
    [ apply no_fault_fired_refl
    | apply first_fault_here; assumption
    | apply first_fault_step; [assumption|]
    | apply no_fault_fired_step; [assumption|] ].

(* ================================================================== *)
(** * Running scope resolution *)

Ltac step_stmt :=
  match goal with
  | |- context [stmt ?o ?s] =>
      let e := fresh "e" in
      let Hf := fresh "Hf" in
      let Hs := fresh "Hs" in
      destruct (stmt_cases o s) as [(e & Hf & Hs) | (Hf & Hs)];
      rewrite Hs; clear Hs
  end.

Ltac step_match :=
  match goal with
  | Hrows : filter ?p ?l = [] |- context [find ?p ?l] =>
      rewrite (filter_nil_find_none _ p l Hrows)
  | |- context [find (scope_matches (Some ?rid) ?c)
                     (filter (fun row => negb (owned_by ?rid row)) ?l)] =>
      rewrite (find_after_delete rid c l)
  | |- context [hd_error (filter ?p ?l)] =>
      let H := fresh "Hrows" in
      destruct (filter p l) eqn:H
  | |- context [match find ?p ?l with _ => _ end] =>
      let H := fresh "Hfind" in destruct (find p l) eqn:H
  end.

Ltac unfold_focs :=
  unfold findOrCreateResourceConfigScope, query_scopes, rows_Next,
    upsert_scope, delete_scopes_of, rows_Scan, rows_Close, bind, get, ret,
    modify.

Ltac run_focs :=
  unfold_focs;
  repeat (first [step_stmt | step_match]; cbn -[filter find]).

(** The four ways the policy can come out: no resource; resource with the
    feature off; feature on with a direct base type (flag set or not) or
    without one. *)
Ltac policy_cases flag r resource :=
  destruct resource as [?res|];
  [ destruct flag;
    [ destruct r as [?i ?lr ?cache [[?bid ?bname [|]]|]] | ] | ];
  cbn -[filter find stmt].

Ltac inv_run H := inversion H; subst; clear H; cbn -[filter find].

(** What a successful scope resolution returned and did: it returned the
    first row the lookup key matches and left the table alone, or it
    replaced the rows of the resource by a new private row, or it added
    the shared row that was missing. *)
Lemma focs_success flag r resource s scope s' :
  findOrCreateResourceConfigScope flag r resource s = (inr scope, s') ->
  scope_resourceConfig scope = r
  /\ scope_resource scope = uniqueResource_of flag r resource
  /\ ((exists t,
          filter (scope_matches (option_map Resource_ID (scope_resource scope))
                                (rc_ID r)) (scopes s) = scope_row scope :: t)
       /\ scopes s' = scopes s
       /\ next_scope_id s' = next_scope_id s
      \/ (exists res, scope_resource scope = Some res
          /\ scopes s' = filter (fun row => negb (owned_by (Resource_ID res) row))
                                (scopes s) ++ [scope_row scope]
          /\ scope_id scope = next_scope_id s
          /\ next_scope_id s' = next_scope_id s + 1
          /\ oplog s' = oplog s ++ [OpSelect T_resource_config_scopes;
                                    OpRowsNext;
                                    OpDelete T_resource_config_scopes;
                                    OpUpsert T_resource_config_scopes])
      \/ (scope_resource scope = None
          /\ filter (scope_matches None (rc_ID r)) (scopes s) = []
          /\ scopes s' = scopes s ++ [scope_row scope]
          /\ scope_id scope = next_scope_id s
          /\ next_scope_id s' = next_scope_id s + 1
          /\ oplog s' = oplog s ++ [OpSelect T_resource_config_scopes;
                                    OpRowsNext;
                                    OpUpsert T_resource_config_scopes])).
Proof.
  unfold scopes, scope_row.
  policy_cases flag r resource; run_focs; intros H; inv_run H;
    rewrite <- ?app_assoc; cbn -[filter find];
    (split; [reflexivity|]); (split; [reflexivity|]).
  all: try match goal with
       | Hrows : filter ?p ?l = ?x :: _ |- _ =>
           left; destruct (filter_cons_head _ p l _ _ Hrows) as [Hin Hm];
           rewrite <- (scope_matches_row _ _ _ Hm); eauto; fail
       end.
  all: try match goal with
       | Hfind : find ?p ?l = Some ?x |- _ =>
           left; destruct (find_some_filter_head _ p l x Hfind) as (t & Ht);
           destruct (find_some _ _ Hfind) as [Hin Hm];
           rewrite <- (scope_matches_row _ _ _ Hm); eauto; fail
       end.
  all: try (right; left; eexists; repeat split; eauto; fail).
  all: try match goal with
       | Hfind : find ?p ?l = None |- _ =>
           right; right; pose proof (find_none_filter_nil _ p l Hfind);
           repeat split; eauto; fail
       end.
  all: try (right; right; repeat split; eauto; fail).
Qed.

(** What any run of scope resolution, failed or not, leaves alone and which
    statements it issued.  When [rows.Next()], the second call, does not
    fail, an error returned is the first fault the store raised and a scope
    returned means that no call failed. *)
Lemma focs_frame flag r resource s res s' :
  findOrCreateResourceConfigScope flag r resource s = (res, s') ->
  open_tx s' = open_tx s
  /\ base_resource_types (tables s') = base_resource_types (tables s)
  /\ resource_caches (tables s') = resource_caches (tables s)
  /\ resource_configs (tables s') = resource_configs (tables s)
  /\ (exists ops, oplog s' = oplog s ++ ops
        /\ forallb is_scope_stmt ops = true
        /\ (uniqueResource_of flag r resource = None ->
            existsb is_delete ops = false))
  /\ (hd None (tl (faults s)) = None ->
      match res with
      | inl e => first_fault (faults s) e (faults s')
      | inr _ => no_fault_fired (faults s) (faults s')
      end).
Proof.
  policy_cases flag r resource; run_focs; intros H; inv_run H;
    rewrite <- ?app_assoc; cbn -[filter find];
    repeat (split; [reflexivity|]);
    (split; [eexists; split; [reflexivity|]; split; [reflexivity|];
             cbn; first [reflexivity | discriminate] |]);
    intros Hnext; try congruence; solve_faults.
Qed.

(** The shapes the scopes table can have after any run. *)
Lemma focs_shape flag r resource s res s' :
  findOrCreateResourceConfigScope flag r resource s = (res, s') ->
  (scopes s' = scopes s /\ next_scope_id s' = next_scope_id s)
  \/ (exists owner, uniqueResource_of flag r resource = Some owner
      /\ next_scope_id s' = next_scope_id s
      /\ scopes s' = filter (fun row => negb (owned_by (Resource_ID owner) row))
                            (scopes s))
  \/ (exists owner, uniqueResource_of flag r resource = Some owner
      /\ next_scope_id s' = next_scope_id s + 1
      /\ scopes s' = filter (fun row => negb (owned_by (Resource_ID owner) row))
                            (scopes s)
                     ++ [{| row_id := next_scope_id s;
                            row_resource_id := Some (Resource_ID owner);
                            row_resource_config_id := rc_ID r |}])
  \/ (uniqueResource_of flag r resource = None
      /\ next_scope_id s' = next_scope_id s + 1
      /\ scopes s' = scopes s
                     ++ [{| row_id := next_scope_id s;
                            row_resource_id := None;
                            row_resource_config_id := rc_ID r |}]).
Proof.
  unfold scopes.
  policy_cases flag r resource; run_focs; intros H; inv_run H.
  all: try (left; split; reflexivity).
  all: try (right; left; eexists; repeat split; reflexivity).
  all: try (right; right; left; eexists; repeat split; reflexivity).
  all: try (right; right; right; repeat split; reflexivity).
Qed.

Lemma focs_total flag r resource s :
  faults s = [] ->
  exists scope s',
    findOrCreateResourceConfigScope flag r resource s = (inr scope, s')
    /\ faults s' = [].
Proof.
  intros Hnil.
  policy_cases flag r resource; run_focs;
    repeat match goal with
           | H : hd None _ = Some _ |- _ =>
               cbn in H; rewrite Hnil in H; discriminate H
           end;
    eexists; eexists; (split; [reflexivity|]); cbn; rewrite Hnil; reflexivity.
Qed.

Lemma focs_success_row flag r resource s scope s' :
  findOrCreateResourceConfigScope flag r resource s = (inr scope, s') ->
  In (scope_row scope) (scopes s').
Proof.
  intros H. apply focs_success in H.
  destruct H as (_ & _ & [((t & Ht) & Hs & _) | [(res & _ & Hs & _) | (_ & _ & Hs & _)]]).
  - rewrite Hs. apply (filter_cons_head _ _ _ _ _ Ht).
  - rewrite Hs. apply in_or_app. right. now left.
  - rewrite Hs. apply in_or_app. right. now left.
Qed.

Lemma scope_ids_wf_preserved flag r resource s res s' :
  scope_ids_wf s ->
  findOrCreateResourceConfigScope flag r resource s = (res, s') ->
  scope_ids_wf s'.
Proof.
  intros [Hnd Hlt] H. apply focs_shape in H. unfold scope_ids_wf.
  assert (Hfresh : ~ In (next_scope_id s) (map row_id (scopes s))).
  { intros Hin. apply in_map_iff in Hin. destruct Hin as (row & Hid & Hin).
    specialize (Hlt row Hin). lia. }
  destruct H as [(Hs & Hn) | [(o & _ & Hn & Hs) | [(o & _ & Hn & Hs) | (_ & Hn & Hs)]]];
    rewrite Hs, Hn.
  - split; assumption.
  - split; [now apply NoDup_map_filter|].
    intros row Hin. apply filter_In in Hin. apply Hlt. tauto.
  - split.
    + rewrite map_app. simpl. apply NoDup_app.
      * now apply NoDup_map_filter.
      * repeat constructor. simpl. tauto.
      * intros x Hin [<-|[]]. apply Hfresh.
        apply in_map_iff in Hin. destruct Hin as (row & Hid & Hin).
        apply filter_In in Hin. apply in_map_iff. exists row. tauto.
    + intros row Hin. apply in_app_or in Hin. destruct Hin as [Hin|[<-|[]]].
      * apply filter_In in Hin. destruct Hin as [Hin _].
        specialize (Hlt row Hin). lia.
      * simpl. lia.
  - split.
    + rewrite map_app. simpl. apply NoDup_app.
      * assumption.
      * repeat constructor. simpl. tauto.
      * intros x Hin [<-|[]]. now apply Hfresh.
    + intros row Hin. apply in_app_or in Hin. destruct Hin as [Hin|[<-|[]]].
      * specialize (Hlt row Hin). lia.
      * simpl. lia.
Qed.

Lemma owned_rows_one_le rid row :
  (List.length (owned_rows rid [row]) <= 1)%nat.
Proof. unfold owned_rows. simpl. destruct (owned_by rid row); simpl; lia. Qed.

Lemma owned_rows_one_other rid i o c :
  rid <> o ->
  owned_rows rid [{| row_id := i; row_resource_id := Some o;
                     row_resource_config_id := c |}] = [].
Proof.
  intros Hne. unfold owned_rows, owned_by. simpl.
  destruct (Z.eqb_spec o rid); [congruence | reflexivity].
Qed.

Lemma at_most_one_owned_preserved flag r resource s res s' :
  at_most_one_owned (scopes s) ->
  findOrCreateResourceConfigScope flag r resource s = (res, s') ->
  at_most_one_owned (scopes s').
Proof.
  intros Hone H rid. apply focs_shape in H. specialize (Hone rid).
  destruct H as [(Hs & _) | [(o & _ & _ & Hs) | [(o & _ & _ & Hs) | (_ & _ & Hs)]]];
    rewrite Hs.
  - exact Hone.
  - pose proof (owned_rows_delete_le rid (Resource_ID o) (scopes s)). lia.
  - rewrite owned_rows_app, length_app.
    destruct (Z.eq_dec rid (Resource_ID o)) as [->|Hne].
    + rewrite owned_rows_after_delete.
      pose proof (owned_rows_one_le (Resource_ID o)
        {| row_id := next_scope_id s;
           row_resource_id := Some (Resource_ID o);
           row_resource_config_id := rc_ID r |}).
      simpl in *. lia.
    + rewrite owned_rows_other_delete by exact Hne.
      rewrite owned_rows_one_other by exact Hne. simpl. lia.
  - rewrite owned_rows_app, length_app. unfold owned_rows at 2. simpl. lia.
Qed.

Lemma singleton_of_short A (l : list A) x :
  (List.length l <= 1)%nat -> In x l -> l = [x].
Proof.
  destruct l as [|y [|z l]]; simpl; intros Hlen Hin.
  - contradiction.
  - destruct Hin as [->|[]]. reflexivity.
  - lia.
Qed.

Lemma owned_by_scope_row scope owner :
  scope_resource scope = Some owner ->
  owned_by (Resource_ID owner) (scope_row scope) = true.
Proof.
  intros H. unfold owned_by, scope_row. simpl. rewrite H. simpl.
  apply Z.eqb_refl.
Qed.

(* ================================================================== *)
(** * Running FindOrCreateScope *)

Lemma FindOrCreateScope_run flag r resource s res s' :
  FindOrCreateScope flag r resource s = (res, s') ->
  (exists e, hd None (faults s) = Some e /\ res = inl e
             /\ s' = set_faults (tl (faults s)) (log_op OpBegin s))
  \/ (exists e s2, hd None (faults s) = None
        /\ findOrCreateResourceConfigScope flag r resource (begun s) = (inl e, s2)
        /\ res = inl e
        /\ s' = set_open_tx None (set_tables (tables s) (log_op OpRollback s2)))
  \/ (exists e scope s2, hd None (faults s) = None
        /\ findOrCreateResourceConfigScope flag r resource (begun s) = (inr scope, s2)
        /\ hd None (faults s2) = Some e
        /\ res = inl e
        /\ s' = set_open_tx None (set_tables (tables s) (after_commit_stmt s2)))
  \/ (exists scope s2, hd None (faults s) = None
        /\ findOrCreateResourceConfigScope flag r resource (begun s) = (inr scope, s2)
        /\ hd None (faults s2) = None
        /\ res = inr scope
        /\ s' = set_open_tx None (after_commit_stmt s2)).
Proof.
  unfold FindOrCreateScope, Begin, with_deferred_Rollback, Commit.
  unfold bind at 1. unfold modify.
  destruct (stmt_cases OpBegin s) as [(e & Hf & Hs) | (Hf & Hs)]; rewrite Hs.
  - intros H. inversion H; subst. left. eauto.
  - set (s1 := set_open_tx
                 (Some (tables (set_faults (tl (faults s)) (log_op OpBegin s))))
                 (set_faults (tl (faults s)) (log_op OpBegin s))).
    change s1 with (begun s). clear s1.
    unfold bind at 1.
    remember (findOrCreateResourceConfigScope flag r resource (begun s))
      as out eqn:Hrun.
    symmetry in Hrun. destruct out as [[e|scope] s2];
      pose proof (focs_frame _ _ _ _ _ _ Hrun) as (Htx & _);
      change (open_tx (begun s)) with (Some (tables s)) in Htx.
    + cbv beta iota. unfold Rollback. rewrite Htx.
      intros H. inversion H; subst. right. left. eauto 10.
    + unfold bind, ret.
      destruct (stmt_cases OpCommit s2) as [(e & Hf2 & Hs2) | (Hf2 & Hs2)];
        rewrite Hs2; cbv beta iota; unfold Rollback; cbn; rewrite ?Htx; cbn.
      * intros H. inversion H; subst. right. right. left.
        exists e, scope, s2. auto.
      * intros H. inversion H; subst. right. right. right.
        exists scope, s2. auto.
Qed.

(* ================================================================== *)
(** * Scope policy *)

Lemma uniqueResource_of_enabled r res :
  uniqueResource_of true r (Some res) = Some res <->
  exists brt, CreatedByBaseResourceType r = Some brt
              /\ UniqueVersionHistory brt = true.
Proof.
  destruct r as [i lr cache [[bid bname [|]]|]]; simpl; split.
  - intros _. eexists. split; reflexivity.
  - reflexivity.
  - discriminate.
  - intros (brt & Hb & Hu). inversion Hb; subst. discriminate.
  - discriminate.
  - intros (brt & Hb & _). discriminate.
Qed.

Lemma uniqueResource_of_cases flag r res :
  uniqueResource_of flag r (Some res) = Some res
  \/ uniqueResource_of flag r (Some res) = None.
Proof.
  unfold uniqueResource_of. destruct (negb flag); [now left|].
  destruct (CreatedByBaseResourceType r) as [brt|]; [|now right].
  destruct (UniqueVersionHistory brt); [now left | now right].
Qed.

(** C2, as the code has it: with the global-resources feature enabled and
    an owning resource supplied, the resolved scope is private to that
    resource exactly when the config was created directly by a base
    resource type whose unique-version-history flag is set; every other
    config, in particular one created by a resource cache, resolves to the
    shared scope (no owner), whatever the root of its origin chain says. *)
Theorem enabled_scope_private_iff_direct_unique r res s scope s' :
  findOrCreateResourceConfigScope true r (Some res) s = (inr scope, s') ->
  (scope_resource scope = Some res <->
     exists brt, CreatedByBaseResourceType r = Some brt
                 /\ UniqueVersionHistory brt = true)
  /\ (scope_resource scope = None <->
        ~ exists brt, CreatedByBaseResourceType r = Some brt
                      /\ UniqueVersionHistory brt = true)
  /\ (CreatedByBaseResourceType r = None -> scope_resource scope = None)
  /\ In (scope_row scope) (scopes s')
  /\ row_resource_id (scope_row scope)
     = option_map Resource_ID (scope_resource scope).
Proof.
  intros H. pose proof (focs_success_row _ _ _ _ _ _ H) as Hrow.
  apply focs_success in H. destruct H as (_ & Hpol & _).
  pose proof (uniqueResource_of_enabled r res) as Hiff.
  rewrite <- Hpol in Hiff.
  split; [exact Hiff|]. split; [split|split; [|split]].
  - intros Hnone Hex. apply Hiff in Hex. congruence.
  - intros Hn. destruct (uniqueResource_of_cases true r res) as [E|E];
      rewrite <- Hpol in E; [|exact E].
    exfalso. apply Hn. now apply Hiff.
  - intros Hnone. rewrite Hpol. simpl. now rewrite Hnone.
  - exact Hrow.
  - reflexivity.
Qed.

Lemma enabled_scope_private_iff_direct_unique_witness :
  findOrCreateResourceConfigScope true Ex.time_config (Some Ex.res_a)
    Ex.empty_store
  = (inr {| scope_id := 10; scope_resource := Some Ex.res_a;
            scope_resourceConfig := Ex.time_config |},
     snd (findOrCreateResourceConfigScope true Ex.time_config
            (Some Ex.res_a) Ex.empty_store))
  /\ (Some Ex.res_a = Some Ex.res_a <->
      exists brt, CreatedByBaseResourceType Ex.time_config = Some brt
                  /\ UniqueVersionHistory brt = true).
Proof.
  assert (Hrun :
    findOrCreateResourceConfigScope true Ex.time_config (Some Ex.res_a)
      Ex.empty_store
    = (inr {| scope_id := 10; scope_resource := Some Ex.res_a;
              scope_resourceConfig := Ex.time_config |},
       snd (findOrCreateResourceConfigScope true Ex.time_config
              (Some Ex.res_a) Ex.empty_store)))
    by (vm_compute; reflexivity).
  split; [exact Hrun|].
  exact (proj1 (enabled_scope_private_iff_direct_unique
                  Ex.time_config Ex.res_a Ex.empty_store _ _ Hrun)).
Defined.

(** C2, counterexample to the claim as stated: a config created by a
    resource cache whose origin chain bottoms out at a base resource type
    with unique version history resolves, with the feature enabled and a
    resource supplied, to the shared scope. *)
Lemma enabled_scope_ignores_origin_chain :
  fst (findOrCreate Ex.hash Ex.custom_descriptor Ex.empty_store)
    = inr Ex.custom_config
  /\ OriginBaseResourceType Ex.custom_config = Some Ex.time
  /\ UniqueVersionHistory Ex.time = true
  /\ fst (findOrCreateResourceConfigScope true Ex.custom_config
            (Some Ex.res_a) Ex.custom_store)
     = inr {| scope_id := 10; scope_resource := None;
              scope_resourceConfig := Ex.custom_config |}.
Proof. vm_compute. repeat split. Qed.

(** X4: Two resources whose scopes for one config come out shared receive the
    same scope. *)
Lemma shared_scope_is_common flag r a b s sa s1 sb s2 :
  findOrCreateResourceConfigScope flag r a s = (inr sa, s1) ->
  findOrCreateResourceConfigScope flag r b s1 = (inr sb, s2) ->
  scope_resource sa = None -> scope_resource sb = None ->
  scope_id sa = scope_id sb.
Proof.
  intros Ha Hb Na Nb.
  pose proof (focs_success_row _ _ _ _ _ _ Ha) as Hrow.
  apply focs_success in Ha. apply focs_success in Hb.
  destruct Ha as (Hra & _ & Ha). destruct Hb as (Hrb & _ & Hb).
  assert (Hm : scope_matches None (rc_ID r) (scope_row sa) = true).
  { apply scope_matches_true. unfold scope_row. simpl.
    rewrite Na, Hra. auto. }
  assert (Hne : forall t, filter (scope_matches None (rc_ID r)) (scopes s1) = t ->
                          exists u, t = scope_row sa :: u).
  { intros t <-.
    destruct Ha as [((t & Ht) & Hs & _) | [(res & E & _) | (_ & Hnil & Hs & _)]].
    - rewrite Hs. rewrite Na in Ht. simpl in Ht. eauto.
    - congruence.
    - rewrite Hs, filter_app, Hnil. simpl. rewrite Hm. eauto. }
  destruct Hb as [((t & Ht) & _) | [(res & E & _) | (_ & Hnil & _)]].
  - rewrite Nb in Ht. simpl in Ht. destruct (Hne _ Ht) as (u & Hu).
    inversion Hu as [[Hid Hrid]]. reflexivity.
  - congruence.
  - destruct (Hne _ Hnil) as (u & Hu). discriminate.
Qed.

(** C3: with the global-resources feature disabled, every resolution for a
    supplied resource is private to it.  When two resources with different
    identities resolve scopes for the same config one after the other, the
    two scopes returned are owned by the respective resource, have
    different identities, and both rows are in the table afterwards; on a
    store that answers every call both resolutions do return a scope. *)
Theorem disabled_flag_gives_distinct_private_scopes r a b s :
  Resource_ID a <> Resource_ID b ->
  scope_ids_wf s ->
  (forall sa s1 sb s2,
      findOrCreateResourceConfigScope false r (Some a) s = (inr sa, s1) ->
      findOrCreateResourceConfigScope false r (Some b) s1 = (inr sb, s2) ->
      scope_resource sa = Some a
      /\ scope_resource sb = Some b
      /\ scope_id sa <> scope_id sb
      /\ In (scope_row sa) (scopes s2)
      /\ In (scope_row sb) (scopes s2))
  /\ (faults s = [] ->
      exists sa s1 sb s2,
        findOrCreateResourceConfigScope false r (Some a) s = (inr sa, s1)
        /\ findOrCreateResourceConfigScope false r (Some b) s1 = (inr sb, s2)
        /\ scope_resource sa = Some a
        /\ scope_resource sb = Some b
        /\ scope_id sa <> scope_id sb
        /\ In (scope_row sa) (scopes s2)
        /\ In (scope_row sb) (scopes s2)).
Proof.
  intros Hne Hwf.
  assert (Hcond : forall sa s1 sb s2,
      findOrCreateResourceConfigScope false r (Some a) s = (inr sa, s1) ->
      findOrCreateResourceConfigScope false r (Some b) s1 = (inr sb, s2) ->
      scope_resource sa = Some a
      /\ scope_resource sb = Some b
      /\ scope_id sa <> scope_id sb
      /\ In (scope_row sa) (scopes s2)
      /\ In (scope_row sb) (scopes s2)).
  { intros sa s1 sb s2 Ha Hb.
    pose proof (scope_ids_wf_preserved _ _ _ _ _ _ Hwf Ha) as Hwf1.
    pose proof (scope_ids_wf_preserved _ _ _ _ _ _ Hwf1 Hb) as Hwf2.
    pose proof (focs_success_row _ _ _ _ _ _ Ha) as Hrowa.
    pose proof (focs_success_row _ _ _ _ _ _ Hb) as Hrowb.
    pose proof (focs_shape _ _ _ _ _ _ Hb) as Hshape.
    apply focs_success in Ha. apply focs_success in Hb.
    destruct Ha as (_ & Hpa & _). destruct Hb as (_ & Hpb & _).
    simpl in Hpa, Hpb.
    assert (Hkeep : In (scope_row sa) (scopes s2)).
    { assert (Hown : owned_by (Resource_ID b) (scope_row sa) = false).
      { unfold owned_by, scope_row. simpl. rewrite Hpa. simpl.
        destruct (Z.eqb_spec (Resource_ID a) (Resource_ID b));
          [contradiction | reflexivity]. }
      destruct Hshape as [(Hs & _) | [(o & Ho & _ & Hs) | [(o & Ho & _ & Hs) | (Ho & _)]]].
      - rewrite Hs. exact Hrowa.
      - simpl in Ho. inversion Ho; subst o. rewrite Hs.
        apply filter_In. split; [exact Hrowa|]. now rewrite Hown.
      - simpl in Ho. inversion Ho; subst o. rewrite Hs.
        apply in_or_app. left.
        apply filter_In. split; [exact Hrowa|]. now rewrite Hown.
      - simpl in Ho. discriminate. }
    repeat split; auto.
    intros Heq. destruct Hwf2 as [Hnd _].
    pose proof (NoDup_map_same _ _ row_id _ _ _ Hnd Hkeep Hrowb Heq) as Hsame.
    unfold scope_row in Hsame. rewrite Hpa, Hpb in Hsame. simpl in Hsame.
    inversion Hsame. contradiction. }
  split; [exact Hcond|].
  intros Hnil.
  destruct (focs_total false r (Some a) s Hnil) as (sa & s1 & Ha & Hnil1).
  destruct (focs_total false r (Some b) s1 Hnil1) as (sb & s2 & Hb & _).
  exists sa, s1, sb, s2. split; [exact Ha|]. split; [exact Hb|].
  exact (Hcond sa s1 sb s2 Ha Hb).
Qed.

Lemma disabled_flag_gives_distinct_private_scopes_witness :
  Resource_ID Ex.res_a <> Resource_ID Ex.res_b
  /\ scope_ids_wf Ex.empty_store
  /\ faults Ex.empty_store = []
  /\ fst (findOrCreateResourceConfigScope false Ex.git_config
            (Some Ex.res_a) Ex.empty_store)
     = inr {| scope_id := 10; scope_resource := Some Ex.res_a;
              scope_resourceConfig := Ex.git_config |}
  /\ fst (findOrCreateResourceConfigScope false Ex.git_config
            (Some Ex.res_b)
            (snd (findOrCreateResourceConfigScope false Ex.git_config
                    (Some Ex.res_a) Ex.empty_store)))
     = inr {| scope_id := 11; scope_resource := Some Ex.res_b;
              scope_resourceConfig := Ex.git_config |}
  /\ exists sa s1 sb s2,
       findOrCreateResourceConfigScope false Ex.git_config (Some Ex.res_a)
         Ex.empty_store = (inr sa, s1)
       /\ findOrCreateResourceConfigScope false Ex.git_config (Some Ex.res_b)
            s1 = (inr sb, s2)
       /\ scope_resource sa = Some Ex.res_a
       /\ scope_resource sb = Some Ex.res_b
       /\ scope_id sa <> scope_id sb
       /\ In (scope_row sa) (scopes s2)
       /\ In (scope_row sb) (scopes s2).
Proof.
  assert (Hne : Resource_ID Ex.res_a <> Resource_ID Ex.res_b)
    by (simpl; lia).
  assert (Hwf : scope_ids_wf Ex.empty_store)
    by (split; [constructor | intros row []]).
  split; [exact Hne|]. split; [exact Hwf|]. split; [reflexivity|].
  split; [vm_compute; reflexivity|]. split; [vm_compute; reflexivity|].
  exact (proj2 (disabled_flag_gives_distinct_private_scopes
                  Ex.git_config Ex.res_a Ex.res_b Ex.empty_store Hne Hwf)
           eq_refl).
Defined.

(* ================================================================== *)
(** * One private scope per resource *)

Lemma owned_rows_after_replace rid l row :
  owned_by rid row = true ->
  owned_rows rid (filter (fun x => negb (owned_by rid x)) l ++ [row]) = [row].
Proof.
  intros H. rewrite owned_rows_app, owned_rows_after_delete.
  unfold owned_rows. simpl. now rewrite H.
Qed.

(** C4: scope resolution never leaves the caller's transaction and keeps
    "every resource owns at most one scope row".  A resolution that comes
    out private either returned the row the lookup found and left the table
    alone, or took the creation path: select, [rows.Next()], delete of
    every row the resource owns, insert of the new row, all in the same
    transaction, after which the resource owns exactly the returned row,
    however many rows it owned before.  The creation path is the one taken
    when no row exists for the (resource, config) pair.  From a table in
    which the resource owned at most one row, the resource owns exactly the
    returned row on either path. *)
Theorem one_private_scope_per_resource flag r resource s res s' :
  findOrCreateResourceConfigScope flag r resource s = (res, s') ->
  open_tx s' = open_tx s
  /\ (at_most_one_owned (scopes s) -> at_most_one_owned (scopes s'))
  /\ forall scope owner,
       res = inr scope -> scope_resource scope = Some owner ->
       ((exists t,
            filter (scope_matches (Some (Resource_ID owner)) (rc_ID r))
                   (scopes s) = scope_row scope :: t)
         /\ scopes s' = scopes s
        \/ oplog s' = oplog s ++ [OpSelect T_resource_config_scopes;
                                  OpRowsNext;
                                  OpDelete T_resource_config_scopes;
                                  OpUpsert T_resource_config_scopes]
           /\ scopes s'
              = filter (fun row => negb (owned_by (Resource_ID owner) row))
                       (scopes s) ++ [scope_row scope]
           /\ owned_rows (Resource_ID owner) (scopes s') = [scope_row scope]
           /\ scope_id scope = next_scope_id s)
       /\ (filter (scope_matches (Some (Resource_ID owner)) (rc_ID r))
                  (scopes s) = [] ->
           oplog s' = oplog s ++ [OpSelect T_resource_config_scopes;
                                  OpRowsNext;
                                  OpDelete T_resource_config_scopes;
                                  OpUpsert T_resource_config_scopes]
           /\ scopes s'
              = filter (fun row => negb (owned_by (Resource_ID owner) row))
                       (scopes s) ++ [scope_row scope]
           /\ owned_rows (Resource_ID owner) (scopes s') = [scope_row scope]
           /\ scope_id scope = next_scope_id s)
       /\ (at_most_one_owned (scopes s) ->
           owned_rows (Resource_ID owner) (scopes s') = [scope_row scope]).
Proof.
  intros H.
  pose proof (focs_frame _ _ _ _ _ _ H) as (Htx & _).
  split; [exact Htx|].
  split; [intros Hone; exact (at_most_one_owned_preserved _ _ _ _ _ _ Hone H)|].
  intros scope owner -> Hown.
  pose proof (focs_success_row _ _ _ _ _ _ H) as Hrow.
  pose proof (focs_success _ _ _ _ _ _ H) as (_ & _ & Hcases).
  assert (Hpaths :
    (exists t,
        filter (scope_matches (Some (Resource_ID owner)) (rc_ID r))
               (scopes s) = scope_row scope :: t)
    /\ scopes s' = scopes s
    \/ oplog s' = oplog s ++ [OpSelect T_resource_config_scopes;
                              OpRowsNext;
                              OpDelete T_resource_config_scopes;
                              OpUpsert T_resource_config_scopes]
       /\ scopes s'
          = filter (fun row => negb (owned_by (Resource_ID owner) row))
                   (scopes s) ++ [scope_row scope]
       /\ owned_rows (Resource_ID owner) (scopes s') = [scope_row scope]
       /\ scope_id scope = next_scope_id s).
  { destruct Hcases as [((t & Ht) & Hs & _)
                       | [(o & Ho & Hs & Hid & _ & Hlog) | (Hn & _)]].
    - left. rewrite Hown in Ht. simpl in Ht. eauto.
    - right. rewrite Hown in Ho. inversion Ho; subst o.
      repeat split; auto.
      rewrite Hs. apply owned_rows_after_replace.
      now apply owned_by_scope_row.
    - congruence. }
  split; [exact Hpaths|]. split.
  - intros Hnil. destruct Hpaths as [((t & Ht) & _) | Hcreated];
      [rewrite Hnil in Ht; discriminate | exact Hcreated].
  - intros Hone.
    pose proof (at_most_one_owned_preserved _ _ _ _ _ _ Hone H) as Hone'.
    apply singleton_of_short; [apply Hone'|].
    apply filter_In. split; [exact Hrow|].
    now apply owned_by_scope_row.
Qed.

Lemma one_private_scope_per_resource_witness :
  filter (scope_matches (Some (Resource_ID Ex.res_a)) (rc_ID Ex.git_config))
    (scopes (Ex.store [] []
       [{| row_id := 3; row_resource_id := Some 1;
           row_resource_config_id := 7 |};
        {| row_id := 4; row_resource_id := Some 1;
           row_resource_config_id := 8 |};
        {| row_id := 5; row_resource_id := Some 2;
           row_resource_config_id := 7 |}] [])) = []
  /\ fst (findOrCreateResourceConfigScope false Ex.git_config
            (Some Ex.res_a)
            (Ex.store [] []
               [{| row_id := 3; row_resource_id := Some 1;
                   row_resource_config_id := 7 |};
                {| row_id := 4; row_resource_id := Some 1;
                   row_resource_config_id := 8 |};
                {| row_id := 5; row_resource_id := Some 2;
                   row_resource_config_id := 7 |}] []))
     = inr {| scope_id := 10; scope_resource := Some Ex.res_a;
              scope_resourceConfig := Ex.git_config |}
  /\ scopes (snd (findOrCreateResourceConfigScope false Ex.git_config
                    (Some Ex.res_a)
                    (Ex.store [] []
                       [{| row_id := 3; row_resource_id := Some 1;
                           row_resource_config_id := 7 |};
                        {| row_id := 4; row_resource_id := Some 1;
                           row_resource_config_id := 8 |};
                        {| row_id := 5; row_resource_id := Some 2;
                           row_resource_config_id := 7 |}] [])))
     = [{| row_id := 5; row_resource_id := Some 2;
           row_resource_config_id := 7 |};
        {| row_id := 10; row_resource_id := Some 1;
           row_resource_config_id := 11 |}]
  /\ owned_rows (Resource_ID Ex.res_a)
       (scopes (snd (findOrCreateResourceConfigScope false Ex.git_config
                       (Some Ex.res_a)
                       (Ex.store [] []
                          [{| row_id := 3; row_resource_id := Some 1;
                              row_resource_config_id := 7 |};
                           {| row_id := 4; row_resource_id := Some 1;
                              row_resource_config_id := 8 |};
                           {| row_id := 5; row_resource_id := Some 2;
                              row_resource_config_id := 7 |}] []))))
     = [{| row_id := 10; row_resource_id := Some 1;
           row_resource_config_id := 11 |}].
Proof.
  pose (s := Ex.store [] []
               [{| row_id := 3; row_resource_id := Some 1;
                   row_resource_config_id := 7 |};
                {| row_id := 4; row_resource_id := Some 1;
                   row_resource_config_id := 8 |};
                {| row_id := 5; row_resource_id := Some 2;
                   row_resource_config_id := 7 |}] []).
  pose (scope := {| scope_id := 10; scope_resource := Some Ex.res_a;
                    scope_resourceConfig := Ex.git_config |}).
  assert (Hnil :
    filter (scope_matches (Some (Resource_ID Ex.res_a)) (rc_ID Ex.git_config))
           (scopes s) = []) by (vm_compute; reflexivity).
  assert (Hrun :
    findOrCreateResourceConfigScope false Ex.git_config (Some Ex.res_a) s
    = (inr scope,
       snd (findOrCreateResourceConfigScope false Ex.git_config
              (Some Ex.res_a) s)))
    by (vm_compute; reflexivity).
  pose proof (proj1 (proj2
    (proj2 (proj2
      (one_private_scope_per_resource false Ex.git_config (Some Ex.res_a)
         s _ _ Hrun)) scope Ex.res_a eq_refl eq_refl)) Hnil)
    as (_ & Htable & Howned & _).
  split; [exact Hnil|]. split; [exact (f_equal fst Hrun)|].
  split; [exact Htable | exact Howned].
Defined.

(* ================================================================== *)
(** * Resolution without an owning resource *)

(** C10: without an owning resource the resolver behaves the same whatever
    the feature flag is, issues no delete, keeps every existing scope row,
    and a scope it returns has no owner and stands for a row whose
    resource_id is NULL and whose config is the one given.  With a store
    that answers every statement it does return a scope. *)
Theorem scope_without_resource_is_shared flag r s res s' :
  findOrCreateResourceConfigScope flag r None s = (res, s') ->
  findOrCreateResourceConfigScope (negb flag) r None s = (res, s')
  /\ (exists ops, oplog s' = oplog s ++ ops /\ existsb is_delete ops = false)
  /\ (forall row, In row (scopes s) -> In row (scopes s'))
  /\ (forall scope, res = inr scope ->
        scope_resource scope = None
        /\ In {| row_id := scope_id scope; row_resource_id := None;
                 row_resource_config_id := rc_ID r |} (scopes s'))
  /\ (faults s = [] -> exists scope, res = inr scope).
Proof.
  intros H. split; [exact H|].
  pose proof (focs_frame _ _ _ _ _ _ H) as (_ & _ & _ & _ & (ops & Hlog & _ & Hdel) & _).
  split; [exists ops; split; [exact Hlog | now apply Hdel]|].
  split.
  - intros row Hin. apply focs_shape in H.
    destruct H as [(Hs & _) | [(o & Ho & _) | [(o & Ho & _) | (_ & _ & Hs)]]];
      try discriminate; rewrite Hs; auto.
    apply in_or_app. now left.
  - split.
    + intros scope ->.
      pose proof (focs_success_row _ _ _ _ _ _ H) as Hrow.
      apply focs_success in H. destruct H as (Hr & Hpol & _).
      simpl in Hpol. split; [exact Hpol|].
      unfold scope_row in Hrow. rewrite Hpol, Hr in Hrow. exact Hrow.
    + intros Hnil.
      destruct (focs_total flag r None s Hnil) as (scope & s2 & Hrun & _).
      rewrite Hrun in H. inversion H. eauto.
Qed.

Lemma scope_without_resource_is_shared_witness :
  findOrCreateResourceConfigScope true Ex.time_config None Ex.empty_store
  = (inr {| scope_id := 10; scope_resource := None;
            scope_resourceConfig := Ex.time_config |},
     snd (findOrCreateResourceConfigScope true Ex.time_config None
            Ex.empty_store))
  /\ findOrCreateResourceConfigScope false Ex.time_config None Ex.empty_store
     = (inr {| scope_id := 10; scope_resource := None;
               scope_resourceConfig := Ex.time_config |},
        snd (findOrCreateResourceConfigScope true Ex.time_config None
               Ex.empty_store)).
Proof.
  assert (Hrun :
    findOrCreateResourceConfigScope true Ex.time_config None Ex.empty_store
    = (inr {| scope_id := 10; scope_resource := None;
              scope_resourceConfig := Ex.time_config |},
       snd (findOrCreateResourceConfigScope true Ex.time_config None
              Ex.empty_store)))
    by (vm_compute; reflexivity).
  split; [exact Hrun|].
  exact (proj1 (scope_without_resource_is_shared true Ex.time_config
                  Ex.empty_store _ _ Hrun)).
Defined.

(* ================================================================== *)
(** * FindOrCreateScope as a transaction *)

Lemma scope_stmt_not_config_stmt ops :
  forallb is_scope_stmt ops = true -> existsb is_config_stmt ops = false.
Proof.
  induction ops as [|o ops IH]; simpl; [reflexivity|].
  intros H. apply andb_true_iff in H. destruct H as [Ho Hops].
  rewrite (IH Hops). destruct o as [| | |[]|[]|[]|[]| | |]; simpl in *;
    try discriminate; reflexivity.
Qed.

Lemma existsb_config_wrapped body last :
  forallb is_scope_stmt body = true ->
  is_config_stmt last = false ->
  existsb is_config_stmt (OpBegin :: body ++ [last]) = false.
Proof.
  intros Hb Hl. simpl. rewrite existsb_app. simpl.
  rewrite (scope_stmt_not_config_stmt _ Hb), Hl. reflexivity.
Qed.

Lemma begun_oplog s : oplog (begun s) = oplog s ++ [OpBegin].
Proof. reflexivity. Qed.

(** C8, the code at the failing input: the resource owns the scope row of
    the config, [conn.Begin()] and the select are answered, and
    [rows.Next()] fails.  The error is dropped ([rows.Err()] is never
    read): the call takes the no-row branch, deletes the resource's row,
    inserts a new one, commits, and returns the new scope without an error,
    although a call into the store failed inside the transaction. *)
Lemma FindOrCreateScope_commits_after_failed_Next :
  faults (Ex.store [] []
            [{| row_id := 3; row_resource_id := Some 1;
                row_resource_config_id := 11 |}]
            [None; None; Some (SQLError "connection reset")])
    = [None; None; Some (SQLError "connection reset")]
  /\ fst (FindOrCreateScope false Ex.git_config (Some Ex.res_a)
            (Ex.store [] []
               [{| row_id := 3; row_resource_id := Some 1;
                   row_resource_config_id := 11 |}]
               [None; None; Some (SQLError "connection reset")]))
     = inr {| scope_id := 10; scope_resource := Some Ex.res_a;
              scope_resourceConfig := Ex.git_config |}
  /\ scopes (snd (FindOrCreateScope false Ex.git_config (Some Ex.res_a)
                    (Ex.store [] []
                       [{| row_id := 3; row_resource_id := Some 1;
                           row_resource_config_id := 11 |}]
                       [None; None; Some (SQLError "connection reset")])))
     = [{| row_id := 10; row_resource_id := Some 1;
           row_resource_config_id := 11 |}]
  /\ oplog (snd (FindOrCreateScope false Ex.git_config (Some Ex.res_a)
                   (Ex.store [] []
                      [{| row_id := 3; row_resource_id := Some 1;
                          row_resource_config_id := 11 |}]
                      [None; None; Some (SQLError "connection reset")])))
     = [OpBegin; OpSelect T_resource_config_scopes; OpRowsNext;
        OpDelete T_resource_config_scopes;
        OpUpsert T_resource_config_scopes; OpCommit]
  /\ open_tx (snd (FindOrCreateScope false Ex.git_config (Some Ex.res_a)
                     (Ex.store [] []
                        [{| row_id := 3; row_resource_id := Some 1;
                            row_resource_config_id := 11 |}]
                        [None; None; Some (SQLError "connection reset")])))
     = None.
Proof. vm_compute. repeat split. Qed.

(** X18: what does hold of [FindOrCreateScope] and failures.  When it
    returns an error, the tables are those of before the call (whatever
    scope rows the transaction had deleted or inserted) and no transaction
    is left open.  When [rows.Next()], the third call, did not fail, the
    error returned is the first fault the store raised, handed on
    unchanged, and a scope returned means that no call failed. *)
Theorem FindOrCreateScope_error_restores_tables flag r resource s res s' :
  FindOrCreateScope flag r resource s = (res, s') ->
  (forall e, res = inl e ->
             tables s' = tables s /\ (open_tx s = None -> open_tx s' = None))
  /\ (hd None (tl (tl (faults s))) = None ->
      match res with
      | inl e => first_fault (faults s) e (faults s')
      | inr _ => no_fault_fired (faults s) (faults s') /\ open_tx s' = None
      end).
Proof.
  intros H. apply FindOrCreateScope_run in H.
  destruct H as [(e & Hf & -> & ->)
               | [(e & s2 & Hf & Hrun & -> & ->)
               | [(e & scope & s2 & Hf & Hrun & Hf2 & -> & ->)
               | (scope & s2 & Hf & Hrun & Hf2 & -> & ->)]]].
  - split.
    + intros e0 _. split; [reflexivity | auto].
    + intros _. now apply first_fault_here.
  - apply focs_frame in Hrun. destruct Hrun as (_ & _ & _ & _ & _ & Hff).
    split.
    + intros e0 _. split; reflexivity.
    + intros Hnext. apply first_fault_step; [assumption|].
      exact (Hff Hnext).
  - apply focs_frame in Hrun. destruct Hrun as (_ & _ & _ & _ & _ & Hnf).
    split.
    + intros e0 _. split; reflexivity.
    + intros Hnext. apply first_fault_step; [assumption|].
      apply (first_fault_after _ _ _ _ (Hnf Hnext)).
      now apply first_fault_here.
  - apply focs_frame in Hrun. destruct Hrun as (_ & _ & _ & _ & _ & Hnf).
    split.
    + intros e0 He. discriminate.
    + intros Hnext. split; [|reflexivity].
      apply no_fault_fired_step; [assumption|].
      apply (no_fault_fired_trans _ _ _ (Hnf Hnext)).
      apply no_fault_fired_step; [assumption|]. apply no_fault_fired_refl.
Qed.

Lemma FindOrCreateScope_error_restores_tables_witness :
  fst (FindOrCreateScope false Ex.git_config (Some Ex.res_a)
         (Ex.store [] []
            [{| row_id := 3; row_resource_id := Some 1;
                row_resource_config_id := 7 |}]
            [None; None; None; None; Some (SQLError "connection reset")]))
  = inl (SQLError "connection reset")
  /\ oplog (snd (FindOrCreateScope false Ex.git_config (Some Ex.res_a)
                   (Ex.store [] []
                      [{| row_id := 3; row_resource_id := Some 1;
                          row_resource_config_id := 7 |}]
                      [None; None; None; None;
                       Some (SQLError "connection reset")])))
     = [OpBegin; OpSelect T_resource_config_scopes; OpRowsNext;
        OpDelete T_resource_config_scopes;
        OpUpsert T_resource_config_scopes; OpRollback]
  /\ resource_config_scopes
       (tables
          (snd (FindOrCreateScope false Ex.git_config (Some Ex.res_a)
                  (Ex.store [] []
                     [{| row_id := 3; row_resource_id := Some 1;
                         row_resource_config_id := 7 |}]
                     [None; None; None; None;
                      Some (SQLError "connection reset")]))))
     = [{| row_id := 3; row_resource_id := Some 1;
           row_resource_config_id := 7 |}].
Proof.
  pose (s := Ex.store [] []
               [{| row_id := 3; row_resource_id := Some 1;
                   row_resource_config_id := 7 |}]
               [None; None; None; None; Some (SQLError "connection reset")]).
  assert (Hrun :
    FindOrCreateScope false Ex.git_config (Some Ex.res_a) s
    = (inl (SQLError "connection reset"),
       snd (FindOrCreateScope false Ex.git_config (Some Ex.res_a) s)))
    by (vm_compute; reflexivity).
  split; [exact (f_equal fst Hrun)|].
  split; [vm_compute; reflexivity|].
  exact (f_equal resource_config_scopes
           (proj1 (proj1 (FindOrCreateScope_error_restores_tables false
                            Ex.git_config (Some Ex.res_a) s _ _ Hrun)
                     (SQLError "connection reset") eq_refl))).
Defined.

(** C7, as the code has it: [FindOrCreateScope] resolves the scope of the
    config it is called on, whose identity was fixed by an earlier config
    resolution.  It issues no statement against base_resource_types,
    resource_caches or resource_configs and leaves those tables as they
    were; on success its statements are one BEGIN, statements on
    resource_config_scopes only, and one COMMIT, and the scope returned is
    a row of the table for the config given. *)
Theorem FindOrCreateScope_resolves_scope_only flag r resource s res s' :
  FindOrCreateScope flag r resource s = (res, s') ->
  base_resource_types (tables s') = base_resource_types (tables s)
  /\ resource_caches (tables s') = resource_caches (tables s)
  /\ resource_configs (tables s') = resource_configs (tables s)
  /\ (exists ops, oplog s' = oplog s ++ ops
                  /\ existsb is_config_stmt ops = false)
  /\ (forall scope, res = inr scope ->
        scope_resourceConfig scope = r
        /\ In (scope_row scope) (scopes s')
        /\ exists body,
             oplog s' = oplog s ++ OpBegin :: body ++ [OpCommit]
             /\ forallb is_scope_stmt body = true).
Proof.
  intros H. apply FindOrCreateScope_run in H.
  destruct H as [(e & Hf & -> & ->)
               | [(e & s2 & Hf & Hrun & -> & ->)
               | [(e & scope & s2 & Hf & Hrun & Hf2 & -> & ->)
               | (scope & s2 & Hf & Hrun & Hf2 & -> & ->)]]].
  - repeat (split; [reflexivity|]). split.
    + exists [OpBegin]. split; reflexivity.
    + intros scope Hs. discriminate.
  - pose proof (focs_frame _ _ _ _ _ _ Hrun)
      as (_ & _ & _ & _ & (ops & Hlog & Hall & _) & _).
    repeat (split; [reflexivity|]). split.
    + exists (OpBegin :: ops ++ [OpRollback]). split.
      * cbn. rewrite Hlog, begun_oplog, <- !app_assoc. reflexivity.
      * now apply existsb_config_wrapped.
    + intros scope Hs. discriminate.
  - pose proof (focs_frame _ _ _ _ _ _ Hrun)
      as (_ & _ & _ & _ & (ops & Hlog & Hall & _) & _).
    repeat (split; [reflexivity|]). split.
    + exists (OpBegin :: ops ++ [OpCommit]). split.
      * cbn. rewrite Hlog, begun_oplog, <- !app_assoc. reflexivity.
      * now apply existsb_config_wrapped.
    + intros scope0 Hs. discriminate.
  - pose proof (focs_frame _ _ _ _ _ _ Hrun)
      as (_ & Hb & Hc & Hg & (ops & Hlog & Hall & _) & _).
    pose proof (focs_success_row _ _ _ _ _ _ Hrun) as Hrow.
    pose proof (focs_success _ _ _ _ _ _ Hrun) as (Hr & _).
    assert (Hops : oplog (set_open_tx None (after_commit_stmt s2))
                   = oplog s ++ OpBegin :: ops ++ [OpCommit]).
    { cbn. rewrite Hlog, begun_oplog, <- !app_assoc. reflexivity. }
    split; [exact Hb|]. split; [exact Hc|]. split; [exact Hg|]. split.
    + exists (OpBegin :: ops ++ [OpCommit]). split; [exact Hops|].
      now apply existsb_config_wrapped.
    + intros scope0 Hs. inversion Hs; subst scope0.
      split; [exact Hr|]. split; [exact Hrow|].
      exists ops. split; [exact Hops | exact Hall].
Qed.

Lemma FindOrCreateScope_resolves_scope_only_witness :
  FindOrCreateScope true Ex.custom_config (Some Ex.res_a) Ex.custom_store
  = (inr {| scope_id := 10; scope_resource := None;
            scope_resourceConfig := Ex.custom_config |},
     snd (FindOrCreateScope true Ex.custom_config (Some Ex.res_a)
            Ex.custom_store))
  /\ resource_configs
       (tables (snd (FindOrCreateScope true Ex.custom_config
                       (Some Ex.res_a) Ex.custom_store)))
     = resource_configs (tables Ex.custom_store).
Proof.
  assert (Hrun :
    FindOrCreateScope true Ex.custom_config (Some Ex.res_a) Ex.custom_store
    = (inr {| scope_id := 10; scope_resource := None;
              scope_resourceConfig := Ex.custom_config |},
       snd (FindOrCreateScope true Ex.custom_config (Some Ex.res_a)
              Ex.custom_store)))
    by (vm_compute; reflexivity).
  split; [exact Hrun|].
  exact (proj1 (proj2 (proj2
    (FindOrCreateScope_resolves_scope_only true Ex.custom_config
       (Some Ex.res_a) Ex.custom_store _ _ Hrun)))).
Defined.

(** C7, counterexample to the claim as stated: on a store that holds no
    row for the config, config resolution of the descriptor would insert
    the row, but [FindOrCreateScope] on the resolved object succeeds
    without any statement of origin or config resolution and leaves
    resource_configs empty. *)
Lemma FindOrCreateScope_performs_no_config_resolution :
  fst (findOrCreate Ex.hash Ex.time_descriptor Ex.empty_store)
    = inr Ex.time_config
  /\ resource_configs
       (tables (snd (findOrCreate Ex.hash Ex.time_descriptor Ex.empty_store)))
     <> []
  /\ fst (FindOrCreateScope true Ex.time_config (Some Ex.res_a) Ex.empty_store)
     = inr {| scope_id := 10; scope_resource := Some Ex.res_a;
              scope_resourceConfig := Ex.time_config |}
  /\ resource_configs
       (tables (snd (FindOrCreateScope true Ex.time_config (Some Ex.res_a)
                       Ex.empty_store))) = []
  /\ oplog (snd (FindOrCreateScope true Ex.time_config (Some Ex.res_a)
                   Ex.empty_store))
     = [OpBegin; OpSelect T_resource_config_scopes; OpRowsNext;
        OpDelete T_resource_config_scopes;
        OpUpsert T_resource_config_scopes; OpCommit]
  /\ existsb is_config_stmt
       (oplog (snd (FindOrCreateScope true Ex.time_config (Some Ex.res_a)
                      Ex.empty_store))) = false.
Proof.
  vm_compute. repeat split. discriminate.
Qed.

(* ================================================================== *)
(** * The origin chain *)

(** Induction along the chain of resource caches behind a config. *)
Lemma resourceConfig_chain_ind (P : resourceConfig -> Prop)
    (Hroot : forall i lr b, P (Build_resourceConfig i lr None b))
    (Hcache : forall i lr ci r' b,
        P r' ->
        P (Build_resourceConfig i lr (Some (Build_UsedResourceCache ci r')) b)) :
  forall r, P r.
Proof.
  fix go 1. intros [i lr [[ci r']|] b].
  - apply Hcache. apply go.
  - apply Hroot.
Qed.

Lemma OriginBaseResourceType_bottoms_out r B :
  bottoms_out_at r B <-> OriginBaseResourceType r = Some B.
Proof.
  split.
  - induction 1 as [i lr cache B | i lr ci r' B _ IH]; simpl; auto.
    destruct cache as [[ci r']|]; reflexivity.
  - revert B. induction r as [i lr b | i lr ci r' b IH]
      using resourceConfig_chain_ind; intros B H; simpl in H.
    + destruct b as [b|]; [|discriminate].
      inversion H; subst. constructor.
    + destruct b as [b|].
      * inversion H; subst. constructor.
      * constructor. now apply IH.
Qed.

(** C6: a config created directly by a base resource type has that type as
    its origin; a config created by a resource cache whose own config's
    origin chain bottoms out at [B] has origin [B]. *)
Theorem OriginBaseResourceType_walks_origin_chain r B :
  (CreatedByBaseResourceType r = Some B ->
   OriginBaseResourceType r = Some B)
  /\ (forall cache,
        CreatedByBaseResourceType r = None ->
        CreatedByResourceCache r = Some cache ->
        bottoms_out_at (UsedResourceCache_ResourceConfig cache) B ->
        OriginBaseResourceType r = Some B).
Proof.
  destruct r as [i lr c b]. simpl. split.
  - intros ->. destruct c as [[ci r']|]; reflexivity.
  - intros [ci r'] -> -> H. simpl in H.
    now apply OriginBaseResourceType_bottoms_out.
Qed.

Lemma OriginBaseResourceType_walks_origin_chain_witness :
  OriginBaseResourceType Ex.time_config = Some Ex.time
  /\ OriginBaseResourceType Ex.custom_config = Some Ex.time.
Proof.
  split.
  - exact (proj1 (OriginBaseResourceType_walks_origin_chain
                    Ex.time_config Ex.time) eq_refl).
  - exact (proj2 (OriginBaseResourceType_walks_origin_chain
                    Ex.custom_config Ex.time)
             (Build_UsedResourceCache 10 Ex.time_config) eq_refl eq_refl
             (bottoms_out_direct 10 0 None Ex.time)).
Defined.

(* ================================================================== *)
(** * Refreshing last_referenced *)

Lemma touch_id t i row : cfg_id (touch t i row) = cfg_id row.
Proof. unfold touch. destruct (cfg_id row =? i); reflexivity. Qed.

Lemma touch_other t i row : cfg_id row <> i -> touch t i row = row.
Proof.
  intros H. unfold touch. destruct (Z.eqb_spec (cfg_id row) i); congruence.
Qed.

Lemma touch_same t i row :
  cfg_id row = i -> cfg_last_referenced (touch t i row) = t.
Proof. intros H. unfold touch. rewrite H, Z.eqb_refl. reflexivity. Qed.

(** C9: a successful refresh is one UPDATE statement; it returns the
    receiver with [lastReferenced] set to the store's current time, the
    receiver's row exists and it and every row with that id carry this
    time, and rows with another id are exactly those of before. *)
Theorem updateLastReferenced_sets_now r s r' s' :
  updateLastReferenced r s = (inr r', s') ->
  LastReferenced r' = now s
  /\ rc_ID r' = rc_ID r
  /\ CreatedByResourceCache r' = CreatedByResourceCache r
  /\ CreatedByBaseResourceType r' = CreatedByBaseResourceType r
  /\ oplog s' = oplog s ++ [OpUpdate T_resource_configs]
  /\ configs s' = map (touch (now s) (rc_ID r)) (configs s)
  /\ (exists row, In row (configs s') /\ cfg_id row = rc_ID r)
  /\ (forall row, In row (configs s') -> cfg_id row = rc_ID r ->
                  cfg_last_referenced row = now s)
  /\ (forall row, cfg_id row <> rc_ID r ->
                  (In row (configs s') <-> In row (configs s))).
Proof.
  unfold updateLastReferenced, update_last_referenced, bind, ret, configs.
  destruct (stmt_cases (OpUpdate T_resource_configs) s)
    as [(e & Hf & Hs) | (Hf & Hs)]; rewrite Hs; [discriminate|].
  cbn -[existsb].
  destruct (existsb _ _) eqn:Hex; [|discriminate].
  intros H. inversion H; subst; clear H. destruct r as [i lr c b]. cbn.
  repeat (split; [reflexivity|]).
  apply existsb_exists in Hex. destruct Hex as (row0 & Hin0 & Hid0).
  apply Z.eqb_eq in Hid0. split; [|split].
  - exists (touch (now s) i row0). split; [now apply in_map|].
    now rewrite touch_id.
  - intros row Hin Hid. apply in_map_iff in Hin.
    destruct Hin as (old & <- & _). rewrite touch_id in Hid.
    now apply touch_same.
  - intros row Hne. rewrite in_map_iff. split.
    + intros (old & <- & Hin). rewrite touch_id in Hne.
      now rewrite touch_other.
    + intros Hin. exists row. split; [now apply touch_other | exact Hin].
Qed.

Lemma updateLastReferenced_sets_now_witness :
  updateLastReferenced Ex.custom_config Ex.custom_store
  = (inr (Build_resourceConfig 11 500
            (Some (Build_UsedResourceCache 10 Ex.time_config)) None),
     snd (updateLastReferenced Ex.custom_config Ex.custom_store))
  /\ LastReferenced
       (Build_resourceConfig 11 500
          (Some (Build_UsedResourceCache 10 Ex.time_config)) None)
     = now Ex.custom_store.
Proof.
  assert (Hrun :
    updateLastReferenced Ex.custom_config Ex.custom_store
    = (inr (Build_resourceConfig 11 500
              (Some (Build_UsedResourceCache 10 Ex.time_config)) None),
       snd (updateLastReferenced Ex.custom_config Ex.custom_store)))
    by (vm_compute; reflexivity).
  split; [exact Hrun|].
  exact (proj1 (updateLastReferenced_sets_now Ex.custom_config
                  Ex.custom_store _ _ Hrun)).
Defined.

(* ================================================================== *)
(** * What config resolution leaves alone *)

Lemma config_frame_refl s : config_frame s s.
Proof.
  unfold config_frame. repeat (split; [reflexivity|]).
  split; [exists []; now rewrite app_nil_r|].
  split; [exists []; now rewrite app_nil_r|].
  repeat (split; [reflexivity|]).
  exists []. split; [now rewrite app_nil_r | reflexivity].
Qed.

Lemma config_frame_trans s1 s2 s3 :
  config_frame s1 s2 -> config_frame s2 s3 -> config_frame s1 s3.
Proof.
  intros (A1 & A2 & (la & A3) & (lb & A4) & A5 & A6 & A7 & A8 & (oa & A9 & A10))
         (B1 & B2 & (lc & B3) & (ld & B4) & B5 & B6 & B7 & B8 & (ob & B9 & B10)).
  unfold config_frame.
  split; [congruence|]. split; [congruence|].
  split; [exists (la ++ lc); rewrite B3, A3; now rewrite app_assoc|].
  split; [exists (lb ++ ld); rewrite B4, A4; now rewrite app_assoc|].
  split; [congruence|]. split; [congruence|]. split; [congruence|].
  split; [congruence|].
  exists (oa ++ ob). split.
  - rewrite B9, A9. now rewrite app_assoc.
  - rewrite forallb_app, A10, B10. reflexivity.
Qed.

Lemma keeps_ret A (a : A) : keeps config_frame (ret a).
Proof. intros s res s' H. inversion H; subst. apply config_frame_refl. Qed.

Lemma keeps_fail A e : keeps config_frame (@fail A e).
Proof. intros s res s' H. inversion H; subst. apply config_frame_refl. Qed.

Lemma keeps_bind A B (m : M A) (k : A -> M B) :
  keeps config_frame m -> (forall a, keeps config_frame (k a)) ->
  keeps config_frame (bind m k).
Proof.
  intros Hm Hk s res s' H. unfold bind in H.
  destruct (m s) as [[e|a] s1] eqn:E.
  - inversion H; subst. exact (Hm _ _ _ E).
  - eapply config_frame_trans; [exact (Hm _ _ _ E) | exact (Hk a _ _ _ H)].
Qed.

Lemma keeps_config_stmt o :
  is_config_stmt o = true -> keeps config_frame (stmt o).
Proof.
  intros Ho s res s' H. unfold stmt in H.
  assert (Hs : s' = set_faults (tl (faults s)) (log_op o s))
    by (destruct (hd None (faults s)); inversion H; reflexivity).
  subst s'. unfold config_frame. cbn.
  repeat (split; [reflexivity|]).
  split; [exists []; now rewrite app_nil_r|].
  split; [exists []; now rewrite app_nil_r|].
  repeat (split; [reflexivity|]).
  exists [o]. split; [reflexivity|]. simpl. now rewrite Ho.
Qed.

Lemma keeps_get A (f : St -> A) : keeps config_frame (get f).
Proof. intros s res s' H. inversion H; subst. apply config_frame_refl. Qed.

Lemma keeps_BaseResourceType_Find b :
  keeps config_frame (BaseResourceType_Find b).
Proof.
  unfold BaseResourceType_Find. apply keeps_bind.
  - now apply keeps_config_stmt.
  - intros _. apply keeps_get.
Qed.

Lemma config_frame_add_config s row :
  config_frame s
    (bump_config_id (set_configs (resource_configs (tables s) ++ [row]) s)).
Proof.
  unfold config_frame. cbn.
  repeat (split; [reflexivity|]).
  split; [exists []; now rewrite app_nil_r|].
  split; [exists [row]; reflexivity|].
  repeat (split; [reflexivity|]).
  exists []. split; [now rewrite app_nil_r | reflexivity].
Qed.

Lemma config_frame_add_cache s row :
  config_frame s
    (bump_cache_id (set_caches (resource_caches (tables s) ++ [row]) s)).
Proof.
  unfold config_frame. cbn.
  repeat (split; [reflexivity|]).
  split; [exists [row]; reflexivity|].
  split; [exists []; now rewrite app_nil_r|].
  repeat (split; [reflexivity|]).
  exists []. split; [now rewrite app_nil_r | reflexivity].
Qed.

Lemma keeps_select_config name pid hash :
  keeps config_frame (select_config name pid hash).
Proof.
  unfold select_config. apply keeps_bind.
  - now apply keeps_config_stmt.
  - intros _. destruct (parent_column name) as [col|]; [|apply keeps_fail].
    intros s res s' H. destruct (find _ _); inversion H; subst;
      apply config_frame_refl.
Qed.

Lemma keeps_upsert_config name pid hash :
  keeps config_frame (upsert_config name pid hash).
Proof.
  unfold upsert_config. apply keeps_bind.
  - now apply keeps_config_stmt.
  - intros _. destruct (parent_column name) as [col|]; [|apply keeps_fail].
    intros s res s' H. destruct (find _ _); inversion H; subst.
    + apply config_frame_refl.
    + apply config_frame_add_config.
Qed.

Lemma keeps_find_or_create_cache_row cid key :
  keeps config_frame (find_or_create_cache_row cid key).
Proof.
  unfold find_or_create_cache_row. apply keeps_bind.
  - now apply keeps_config_stmt.
  - intros _. apply keeps_bind; [apply keeps_get|].
    intros [row|]; [apply keeps_ret|].
    apply keeps_bind; [now apply keeps_config_stmt|].
    intros _ s res s' H. destruct (find _ _); inversion H; subst.
    + apply config_frame_refl.
    + apply config_frame_add_cache.
Qed.

Section ResolutionFacts.

Variable Source : Type.
Variable mapHash : Source -> string.

(** Induction along the chain of cache descriptors of a descriptor. *)
Lemma descriptor_chain_ind (P : ResourceConfigDescriptor Source -> Prop)
    (Hroot : forall b src, P (Build_ResourceConfigDescriptor None b src))
    (Hcache : forall d key b src,
        P d ->
        P (Build_ResourceConfigDescriptor
             (Some (Build_ResourceCacheDescriptor d key)) b src)) :
  forall d, P d.
Proof.
  fix go 1. intros [[[d key]|] b src].
  - apply Hcache. apply go.
  - apply Hroot.
Qed.

Lemma keeps_findWithParentID src rc name pid :
  keeps config_frame (findWithParentID mapHash src rc name pid).
Proof.
  intros s res s' H. unfold findWithParentID in H.
  destruct (select_config name pid (mapHash src) s) as [[e|[i lr]] s1] eqn:E.
  - pose proof (keeps_select_config _ _ _ _ _ _ E) as Hk.
    destruct (error_eqb e ErrNoRows); inversion H; subst; exact Hk.
  - inversion H; subst. exact (keeps_select_config _ _ _ _ _ _ E).
Qed.

Lemma findOrCreate_unfold cache brt src :
  findOrCreate mapHash (Build_ResourceConfigDescriptor cache brt src)
  = bind
      match cache with
      | Some c =>
          resourceCache <- ResourceCacheDescriptor_findOrCreate mapHash c ;;
          ret (Build_resourceConfig 0 0 (Some resourceCache) None,
               UsedResourceCache_ID resourceCache,
               "resource_cache_id")
      | None => ret (Build_resourceConfig 0 0 None None, 0, "")
      end
      (findOrCreate_tail mapHash brt src).
Proof. reflexivity. Qed.

Lemma ResourceCacheDescriptor_findOrCreate_unfold d key :
  ResourceCacheDescriptor_findOrCreate mapHash
    (Build_ResourceCacheDescriptor d key)
  = (resourceConfig_ <- findOrCreate mapHash d ;;
     i <- find_or_create_cache_row (rc_ID resourceConfig_) key ;;
     ret (Build_UsedResourceCache i resourceConfig_)).
Proof. reflexivity. Qed.

Lemma keeps_findOrCreate_tail brt src x :
  keeps config_frame (findOrCreate_tail mapHash brt src x).
Proof.
  destruct x as [[rc pid] name]. unfold findOrCreate_tail.
  apply keeps_bind.
  - destruct brt as [b|]; [|apply keeps_ret].
    apply keeps_bind; [apply keeps_BaseResourceType_Find|].
    intros [used|]; [apply keeps_ret | apply keeps_fail].
  - intros [[rc' pid'] name']. apply keeps_bind.
    + apply keeps_findWithParentID.
    + intros [[|] rc'']; [apply keeps_ret|].
      apply keeps_bind; [apply keeps_upsert_config|].
      intros [i lr]. apply keeps_ret.
Qed.

(** Any run of config resolution, failed or not, only appends rows to
    resource_caches and resource_configs and issues only selects and
    upserts. *)
Lemma findOrCreate_frame d : keeps config_frame (findOrCreate mapHash d).
Proof.
  induction d as [b src | d key b src IH] using descriptor_chain_ind;
    rewrite findOrCreate_unfold.
  - apply keeps_bind; [apply keeps_ret|].
    intros x. apply keeps_findOrCreate_tail.
  - apply keeps_bind.
    + apply keeps_bind.
      * rewrite ResourceCacheDescriptor_findOrCreate_unfold.
        apply keeps_bind; [exact IH|]. intros rc.
        apply keeps_bind; [apply keeps_find_or_create_cache_row|].
        intros i. apply keeps_ret.
      * intros uc. apply keeps_ret.
    + intros x. apply keeps_findOrCreate_tail.
Qed.

End ResolutionFacts.

(* ================================================================== *)
(** * Config resolution on a store that answers every statement *)

Lemma bind_ok A B (m : M A) (k : A -> M B) s a s1 :
  m s = (inr a, s1) -> bind m k s = k a s1.
Proof. intros H. unfold bind. now rewrite H. Qed.

Lemma bind_err A B (m : M A) (k : A -> M B) s e s1 :
  m s = (inl e, s1) -> bind m k s = (inl e, s1).
Proof. intros H. unfold bind. now rewrite H. Qed.

Lemma stmt_quiet o s : faults s = [] -> stmt o s = (inr tt, log_op o s).
Proof.
  intros H. unfold stmt. rewrite H. cbn. f_equal.
  unfold set_faults, log_op. cbn. rewrite H. reflexivity.
Qed.

Lemma BaseResourceType_Find_quiet b s :
  faults s = [] ->
  BaseResourceType_Find b s
  = (inr (lookup_base_resource_type (brt_Name b) (tables s)),
     log_op (OpSelect T_base_resource_types) s).
Proof.
  intros H. unfold BaseResourceType_Find, bind. rewrite (stmt_quiet _ _ H).
  reflexivity.
Qed.

Lemma select_config_quiet name pid hash s :
  faults s = [] ->
  select_config name pid hash s
  = (match parent_column name with
     | None => inl (SQLError "column does not exist")
     | Some col =>
         match find (config_matches col pid hash)
                    (resource_configs (tables s)) with
         | Some row => inr (cfg_id row, cfg_last_referenced row)
         | None => inl ErrNoRows
         end
     end,
     log_op (OpSelect T_resource_configs) s).
Proof.
  intros H. unfold select_config, bind. rewrite (stmt_quiet _ _ H).
  destruct (parent_column name) as [col|]; [|reflexivity].
  cbn. destruct (find _ _); reflexivity.
Qed.

Lemma upsert_config_new name pid hash s col :
  faults s = [] ->
  parent_column name = Some col ->
  find (config_matches col pid hash) (resource_configs (tables s)) = None ->
  upsert_config name pid hash s
  = (inr (next_config_id s, last_referenced_default s),
     bump_config_id
       (set_configs
          (resource_configs (tables s)
           ++ [new_config_row name (next_config_id s)
                 (last_referenced_default s) pid hash])
          (log_op (OpUpsert T_resource_configs) s))).
Proof.
  intros H Hcol Hfind. unfold upsert_config, bind.
  rewrite (stmt_quiet _ _ H), Hcol. cbn -[find]. rewrite Hfind. reflexivity.
Qed.

Lemma find_app_some A (p : A -> bool) l l' x :
  find p l = Some x -> find p (l ++ l') = Some x.
Proof.
  induction l as [|y l IH]; simpl; [discriminate|].
  destruct (p y); auto.
Qed.

Lemma find_app_none A (p : A -> bool) l x :
  find p l = None -> p x = true -> find p (l ++ [x]) = Some x.
Proof.
  induction l as [|y l IH]; simpl; intros Hn Hx.
  - now rewrite Hx.
  - destruct (p y); [discriminate | auto].
Qed.

Lemma new_config_row_matches name col i lr pid hash :
  parent_column name = Some col ->
  config_matches col pid hash (new_config_row name i lr pid hash) = true.
Proof.
  unfold parent_column, config_matches, new_config_row.
  destruct (String.eqb name "resource_cache_id") eqn:E1.
  - intros H. inversion H; subst. cbn. rewrite Z.eqb_refl, String.eqb_refl.
    reflexivity.
  - destruct (String.eqb name "base_resource_type_id") eqn:E2; [|discriminate].
    intros H. inversion H; subst. cbn. rewrite Z.eqb_refl, String.eqb_refl.
    reflexivity.
Qed.

Lemma config_frame_extends s s' :
  config_frame s s' -> extends (tables s) (tables s').
Proof.
  intros (A1 & _ & A3 & A4 & _). unfold extends. auto.
Qed.

Lemma extends_refl t : extends t t.
Proof.
  unfold extends. split; [reflexivity|].
  split; exists []; now rewrite app_nil_r.
Qed.

Lemma extends_trans t1 t2 t3 :
  extends t1 t2 -> extends t2 t3 -> extends t1 t3.
Proof.
  intros (A1 & (la & A2) & (lb & A3)) (B1 & (lc & B2) & (ld & B3)).
  unfold extends. split; [congruence|]. split.
  - exists (la ++ lc). rewrite B2, A2. now rewrite app_assoc.
  - exists (lb ++ ld). rewrite B3, A3. now rewrite app_assoc.
Qed.

Lemma lookup_base_resource_type_extends name t1 t2 :
  extends t1 t2 ->
  lookup_base_resource_type name t2 = lookup_base_resource_type name t1.
Proof.
  intros (H & _). unfold lookup_base_resource_type. now rewrite H.
Qed.

(** The cache row step, run on a store that answers every statement. *)
Lemma find_or_create_cache_row_settles cid key s i s1 :
  faults s = [] ->
  find_or_create_cache_row cid key s = (inr i, s1) ->
  faults s1 = []
  /\ exists row, find (cache_matches cid key) (resource_caches (tables s1))
                 = Some row /\ cache_id row = i.
Proof.
  intros Hnil. unfold find_or_create_cache_row, bind, get, ret.
  rewrite (stmt_quiet _ _ Hnil). cbn -[find].
  destruct (find _ _) as [row|] eqn:Hfind.
  - intros H. inversion H; subst. cbn. split; [exact Hnil|]. eauto.
  - rewrite stmt_quiet by exact Hnil. cbn -[find]. rewrite Hfind.
    intros H. inversion H; subst. cbn -[find]. split; [exact Hnil|].
    eexists. split.
    + apply find_app_none; [exact Hfind|].
      unfold cache_matches. cbn. now rewrite Z.eqb_refl, String.eqb_refl.
    + reflexivity.
Qed.

Lemma find_or_create_cache_row_found cid key t row :
  faults t = [] ->
  find (cache_matches cid key) (resource_caches (tables t)) = Some row ->
  exists t', find_or_create_cache_row cid key t = (inr (cache_id row), t')
             /\ tables t' = tables t /\ faults t' = [].
Proof.
  intros Hnil Hfind. unfold find_or_create_cache_row, bind, get, ret.
  rewrite (stmt_quiet _ _ Hnil). cbn -[find]. rewrite Hfind.
  eexists. split; [reflexivity|]. cbn. auto.
Qed.

Section ResolutionRuns.

Variable Source : Type.
Variable mapHash : Source -> string.

(** A successful run of the tail leaves a row that a later lookup with the
    same key finds first, and the result is read off that row. *)
Lemma findOrCreate_tail_settles brt src x s rc s1 :
  faults s = [] ->
  findOrCreate_tail mapHash brt src x s = (inr rc, s1) ->
  faults s1 = []
  /\ forall t,
       faults t = [] -> extends (tables s1) (tables t) ->
       exists t', findOrCreate_tail mapHash brt src x t = (inr rc, t')
                  /\ tables t' = tables t /\ faults t' = [].
Proof.
  intros Hnil H.
  pose proof (keeps_findOrCreate_tail _ mapHash brt src x _ _ _ H) as Hframe.
  apply config_frame_extends in Hframe.
  destruct x as [[rc0 pid0] name0]. unfold findOrCreate_tail in *.
  set (phase := match brt with Some b => _ | None => _ end) in *.
  unfold bind at 1 in H.
  (* the base resource type phase *)
  assert (Hphase : exists rcp pid name sb,
    phase s = (inr (rcp, pid, name), sb)
    /\ tables sb = tables s /\ faults sb = []
    /\ forall t, faults t = [] -> extends (tables s) (tables t) ->
         exists tb, phase t = (inr (rcp, pid, name), tb)
                    /\ tables tb = tables t /\ faults tb = []).
  { subst phase. destruct brt as [b|].
    - unfold bind in *. rewrite (BaseResourceType_Find_quiet _ _ Hnil) in *.
      destruct (lookup_base_resource_type (brt_Name b) (tables s))
        as [used|] eqn:Hl; [|discriminate H].
      eexists _, _, _, _. split; [reflexivity|]. cbn.
      split; [reflexivity|]. split; [exact Hnil|].
      intros t Ht Hext. rewrite (BaseResourceType_Find_quiet _ _ Ht).
      rewrite (lookup_base_resource_type_extends _ _ _ Hext), Hl.
      eexists. split; [reflexivity|]. cbn. auto.
    - eexists _, _, _, _. split; [reflexivity|].
      split; [reflexivity|]. split; [exact Hnil|].
      intros t Ht _. eexists. split; [reflexivity|]. auto. }
  destruct Hphase as (rcp & pid & name & sb & E & Htb & Hfb & Hagain).
  rewrite E in H. unfold bind at 1 in H. unfold findWithParentID in H.
  rewrite (select_config_quiet _ _ _ _ Hfb) in H.
  destruct (parent_column name) as [col|] eqn:Hcol; [|discriminate H].
  assert (Hrow : faults s1 = []
                 /\ exists row,
                      find (config_matches col pid (mapHash src))
                           (resource_configs (tables s1)) = Some row
                      /\ rc = set_id_lastReferenced rcp (cfg_id row)
                                (cfg_last_referenced row)).
  { destruct (find _ _) as [row|] eqn:Hfind.
    - inversion H; subst. cbn -[find]. split; [exact Hfb|]. eauto.
    - cbn -[find] in H. unfold bind in H.
      rewrite (upsert_config_new name pid (mapHash src)
                 (log_op (OpSelect T_resource_configs) sb) col
                 Hfb Hcol Hfind) in H.
      unfold ret in H. inversion H; subst. cbn -[find].
      split; [exact Hfb|].
      eexists. split.
      + apply find_app_none; [exact Hfind|].
        now apply new_config_row_matches.
      + reflexivity. }
  destruct Hrow as (Hf1 & row & Hfind1 & ->).
  split; [exact Hf1|].
  intros t Ht Hext.
  assert (Hext0 : extends (tables s) (tables t))
    by (eapply extends_trans; eassumption).
  destruct (Hagain t Ht Hext0) as (tb & Et & Htt & Hft).
  unfold bind at 1. rewrite Et. unfold bind at 1. unfold findWithParentID.
  rewrite (select_config_quiet _ _ _ _ Hft), Hcol.
  destruct Hext as (_ & _ & (l & Hl)).
  rewrite Htt, Hl, (find_app_some _ _ _ l _ Hfind1). cbn.
  eexists. split; [reflexivity|]. cbn. auto.
Qed.

(** A successful run of config resolution settles its descriptor: any later
    run on the same connection, with rows possibly added at the end of the
    tables in between, returns the same object and writes nothing. *)
Lemma findOrCreate_settles d :
  forall s rc s1,
    faults s = [] ->
    findOrCreate mapHash d s = (inr rc, s1) ->
    faults s1 = []
    /\ forall t,
         faults t = [] -> extends (tables s1) (tables t) ->
         exists t', findOrCreate mapHash d t = (inr rc, t')
                    /\ tables t' = tables t /\ faults t' = [].
Proof.
  induction d as [b src | d key b src IH] using descriptor_chain_ind;
    intros s rc s1 Hnil H; rewrite findOrCreate_unfold in H.
  - unfold bind at 1, ret at 1 in H.
    destruct (findOrCreate_tail_settles _ _ _ _ _ _ Hnil H) as (Hf & Hagain).
    split; [exact Hf|]. intros t Ht Hext. rewrite findOrCreate_unfold.
    unfold bind at 1, ret at 1. now apply Hagain.
  - apply bind_inr in H. destruct H as ([[rcp pid] name] & sa & Hhead & Htail).
    apply bind_inr in Hhead. destruct Hhead as (uc & sa' & Hcache & Hret).
    inversion Hret; subst; clear Hret.
    rewrite ResourceCacheDescriptor_findOrCreate_unfold in Hcache.
    apply bind_inr in Hcache. destruct Hcache as (rcd & sd & Hd & Hrow).
    apply bind_inr in Hrow. destruct Hrow as (i & sr & Hrow & Hret).
    inversion Hret; subst; clear Hret.
    destruct (IH _ _ _ Hnil Hd) as (Hfd & Hdagain).
    destruct (find_or_create_cache_row_settles _ _ _ _ _ Hfd Hrow)
      as (Hfr & crow & Hcfind & Hcid).
    subst i.
    pose proof (keeps_find_or_create_cache_row _ _ _ _ _ Hrow) as Hfr1.
    apply config_frame_extends in Hfr1.
    pose proof (keeps_findOrCreate_tail _ mapHash _ _ _ _ _ _ Htail) as Hft1.
    apply config_frame_extends in Hft1.
    destruct (findOrCreate_tail_settles _ _ _ _ _ _ Hfr Htail) as (Hf & Hagain).
    split; [exact Hf|]. intros t Ht Hext. rewrite findOrCreate_unfold.
    assert (Hext_sa : extends (tables sa) (tables t))
      by (eapply extends_trans; eassumption).
    assert (Hext_sd : extends (tables sd) (tables t))
      by (eapply extends_trans; eassumption).
    destruct (Hdagain t Ht Hext_sd) as (td & Etd & Htd & Hftd).
    destruct Hext_sa as (_ & (l & Hl) & _).
    assert (Hcfind' : find (cache_matches (rc_ID rcd) key)
                           (resource_caches (tables td)) = Some crow)
      by (rewrite Htd, Hl; now apply find_app_some).
    destruct (find_or_create_cache_row_found _ _ _ _ Hftd Hcfind')
      as (tr & Etr & Htr & Hftr).
    assert (Hext_tr : extends (tables s1) (tables tr))
      by (rewrite Htr, Htd; exact Hext).
    destruct (Hagain tr Hftr Hext_tr) as (t' & Et' & Ht' & Hft').
    exists t'. split; [|split; [congruence | exact Hft']].
    assert (Hc : ResourceCacheDescriptor_findOrCreate mapHash
                   (Build_ResourceCacheDescriptor d key) t
                 = (inr (Build_UsedResourceCache (cache_id crow) rcd), tr)).
    { rewrite ResourceCacheDescriptor_findOrCreate_unfold.
      rewrite (bind_ok _ _ _ _ _ _ _ Etd).
      rewrite (bind_ok _ _ _ _ _ _ _ Etr). reflexivity. }
    erewrite bind_ok; [exact Et'|].
    rewrite (bind_ok _ _ _ _ _ _ _ Hc). reflexivity.
Qed.

End ResolutionRuns.

(* ================================================================== *)
(** * Idempotent resolution *)

Lemma findOrCreate_times_settled Source (mapHash : Source -> string) d rc T :
  (forall t, faults t = [] -> extends T (tables t) ->
     exists t', findOrCreate mapHash d t = (inr rc, t')
                /\ tables t' = tables t /\ faults t' = []) ->
  forall n t,
    faults t = [] -> extends T (tables t) ->
    exists t', findOrCreate_times mapHash n d t = (repeat (inr rc) n, t')
               /\ tables t' = tables t /\ faults t' = [].
Proof.
  intros Hset. induction n as [|n IH]; intros t Ht Hext; cbn [findOrCreate_times].
  - exists t. auto.
  - destruct (Hset t Ht Hext) as (t1 & E1 & Ht1 & Hf1). rewrite E1.
    assert (Hext1 : extends T (tables t1)) by (now rewrite Ht1).
    destruct (IH t1 Hf1 Hext1) as (t2 & E2 & Ht2 & Hf2). rewrite E2.
    exists t2. cbn. split; [reflexivity|]. split; [congruence | exact Hf2].
Qed.

(** C1: on a store that answers every statement, once config resolution
    of a descriptor has returned a config, every further resolution of the
    same descriptor on that connection returns the very same object (same
    identity, same last-referenced value, same origin) and leaves all
    tables as they are.  The resolution itself only appends rows to
    resource_configs: rows that existed keep every column, last_referenced
    included, and no statement other than selects and upserts is issued. *)
Theorem findOrCreate_is_idempotent Source (mapHash : Source -> string)
    d s rc s1 :
  faults s = [] ->
  findOrCreate mapHash d s = (inr rc, s1) ->
  (exists added,
      resource_configs (tables s1) = resource_configs (tables s) ++ added)
  /\ (exists ops, oplog s1 = oplog s ++ ops
                  /\ forallb is_config_stmt ops = true)
  /\ forall n, exists s2,
       findOrCreate_times mapHash n d s1 = (repeat (inr rc) n, s2)
       /\ tables s2 = tables s1.
Proof.
  intros Hnil H.
  pose proof (findOrCreate_frame _ mapHash d _ _ _ H)
    as (_ & _ & _ & Hcfg & _ & _ & _ & _ & Hops).
  split; [exact Hcfg|]. split; [exact Hops|].
  destruct (findOrCreate_settles _ mapHash d _ _ _ Hnil H) as (Hf1 & Hset).
  intros n.
  destruct (findOrCreate_times_settled _ mapHash d rc (tables s1) Hset n s1
              Hf1 (extends_refl _)) as (s2 & E & Ht & _).
  exists s2. auto.
Qed.

Lemma findOrCreate_is_idempotent_witness :
  faults Ex.empty_store = []
  /\ findOrCreate Ex.hash Ex.custom_descriptor Ex.empty_store
     = (inr Ex.custom_config, Ex.custom_store)
  /\ exists s2,
       findOrCreate_times Ex.hash 3 Ex.custom_descriptor Ex.custom_store
       = (repeat (inr Ex.custom_config) 3, s2)
       /\ tables s2 = tables Ex.custom_store.
Proof.
  assert (Hrun : findOrCreate Ex.hash Ex.custom_descriptor Ex.empty_store
                 = (inr Ex.custom_config, Ex.custom_store))
    by (vm_compute; reflexivity).
  split; [reflexivity|]. split; [exact Hrun|].
  exact (proj2 (proj2 (findOrCreate_is_idempotent string Ex.hash
                         Ex.custom_descriptor Ex.empty_store
                         Ex.custom_config Ex.custom_store eq_refl Hrun)) 3%nat).
Defined.

(* ================================================================== *)
(** * Unknown base resource types *)

Lemma lookup_base_resource_type_unknown name t :
  (forall row, In row (base_resource_types t) -> brt_name row <> name) ->
  lookup_base_resource_type name t = None.
Proof.
  intros H. unfold lookup_base_resource_type.
  destruct (find _ _) as [row|] eqn:E; [|reflexivity].
  apply find_some in E. destruct E as [Hin Heq].
  apply String.eqb_eq in Heq. now apply H in Hin.
Qed.

(** C5: when the descriptor's origin is a base resource type no row of
    base_resource_types carries the name of, and the store answers the
    lookup, config resolution fails with [BaseResourceTypeNotFoundError]
    for that name after that single select, and every table is as before.
    No run of config resolution, of any descriptor, changes
    base_resource_types. *)
Theorem unknown_base_resource_type_fails Source (mapHash : Source -> string)
    b src s res s' :
  (forall row, In row (base_resource_types (tables s)) ->
               brt_name row <> brt_Name b) ->
  hd None (faults s) = None ->
  findOrCreate mapHash (Build_ResourceConfigDescriptor None (Some b) src) s
    = (res, s') ->
  res = inl (BaseResourceTypeNotFoundError (brt_Name b))
  /\ tables s' = tables s
  /\ oplog s' = oplog s ++ [OpSelect T_base_resource_types]
  /\ forall d t r t',
       findOrCreate mapHash d t = (r, t') ->
       base_resource_types (tables t') = base_resource_types (tables t).
Proof.
  intros Hunknown Hf H.
  apply lookup_base_resource_type_unknown in Hunknown.
  rewrite findOrCreate_unfold in H.
  unfold bind at 1, ret at 1, findOrCreate_tail in H.
  unfold bind at 1 in H. unfold bind at 1, BaseResourceType_Find in H.
  unfold bind at 1 in H.
  destruct (stmt_cases (OpSelect T_base_resource_types) s)
    as [(e & Hf' & Hs) | (_ & Hs)]; [congruence|].
  rewrite Hs in H. unfold get in H. cbn -[find] in H.
  fold (lookup_base_resource_type (brt_Name b) (tables s)) in H.
  rewrite Hunknown in H. cbn in H. inversion H; subst; clear H.
  repeat (split; [reflexivity|]).
  intros d t r t' Hrun.
  now pose proof (findOrCreate_frame _ mapHash d _ _ _ Hrun) as (Hb & _).
Qed.

Lemma unknown_base_resource_type_fails_witness :
  (forall row, In row (base_resource_types (tables Ex.empty_store)) ->
               brt_name row <> "svn")
  /\ hd None (faults Ex.empty_store) = None
  /\ fst (findOrCreate Ex.hash Ex.unknown_descriptor Ex.empty_store)
     = inl (BaseResourceTypeNotFoundError "svn")
  /\ tables (snd (findOrCreate Ex.hash Ex.unknown_descriptor Ex.empty_store))
     = tables Ex.empty_store.
Proof.
  assert (Hunknown :
    forall row, In row (base_resource_types (tables Ex.empty_store)) ->
                brt_name row <> brt_Name {| brt_Name := "svn" |}).
  { intros row [<-|[<-|[]]]; simpl; discriminate. }
  assert (Hf : hd None (faults Ex.empty_store) = None) by reflexivity.
  pose proof (unknown_base_resource_type_fails string Ex.hash
                {| brt_Name := "svn" |} "uri: example" Ex.empty_store
                (fst (findOrCreate Ex.hash Ex.unknown_descriptor Ex.empty_store))
                (snd (findOrCreate Ex.hash Ex.unknown_descriptor Ex.empty_store))
                Hunknown Hf (surjective_pairing _)) as (Hres & Htab & _).
  split; [exact Hunknown|]. split; [exact Hf|].
  split; [exact Hres | exact Htab].
Defined.

(* ================================================================== *)
(** * Further properties of scope resolution *)

Lemma uniqueResource_of_some flag r resource owner :
  uniqueResource_of flag r resource = Some owner -> resource = Some owner.
Proof.
  destruct resource as [res|]; simpl; [|discriminate].
  destruct (negb flag); [congruence|].
  destruct (CreatedByBaseResourceType r) as [brt|]; [|discriminate].
  destruct (UniqueVersionHistory brt); [congruence | discriminate].
Qed.

(** When the lookup finds a row and [rows.Next()] does not fail, every run
    leaves the table alone and a successful one returns the first row
    found. *)
Lemma focs_found flag r resource s res s' row t :
  filter (scope_matches
            (option_map Resource_ID (uniqueResource_of flag r resource))
            (rc_ID r)) (scopes s) = row :: t ->
  hd None (tl (faults s)) = None ->
  findOrCreateResourceConfigScope flag r resource s = (res, s') ->
  scopes s' = scopes s
  /\ next_scope_id s' = next_scope_id s
  /\ (forall scope, res = inr scope ->
        scope = {| scope_id := row_id row;
                   scope_resource := uniqueResource_of flag r resource;
                   scope_resourceConfig := r |}).
Proof.
  unfold scopes.
  policy_cases flag r resource; intros Hrow Hnext; unfold_focs;
    repeat (first [step_stmt | rewrite Hrow]; cbn -[filter find]);
    try (cbn in *; congruence);
    intros H; inv_run H;
    (split; [reflexivity|]); (split; [reflexivity|]);
    intros scope Hs; inversion Hs; reflexivity.
Qed.

(** The row a successful resolution returned is the first one a repeated
    lookup finds. *)
Lemma focs_success_first flag r resource s scope s' :
  findOrCreateResourceConfigScope flag r resource s = (inr scope, s') ->
  exists t,
    filter (scope_matches
              (option_map Resource_ID (uniqueResource_of flag r resource))
              (rc_ID r)) (scopes s') = scope_row scope :: t.
Proof.
  intros H. apply focs_success in H.
  destruct H as (Hr & Hpol & [((t & Ht) & Hs & _)
                             | [(o & Ho & Hs & _) | (Hn & Hnil & Hs & _)]]);
    rewrite <- Hpol, Hs.
  - eauto.
  - rewrite Ho. simpl. rewrite filter_app.
    assert (E : filter (scope_matches (Some (Resource_ID o)) (rc_ID r))
                  (filter (fun row => negb (owned_by (Resource_ID o) row))
                          (scopes s)) = []).
    { destruct (filter _ (filter _ _)) as [|x l] eqn:E; [reflexivity|].
      apply filter_cons_head in E. destruct E as [Hin Hm].
      apply filter_In in Hin. destruct Hin as [_ Hno].
      apply scope_matches_true in Hm. destruct Hm as [Hm _].
      unfold owned_by in Hno. rewrite Hm in Hno. simpl in Hno.
      rewrite Z.eqb_refl in Hno. discriminate. }
    rewrite E. simpl.
    assert (Hm : scope_matches (Some (Resource_ID o)) (rc_ID r)
                   (scope_row scope) = true).
    { apply scope_matches_true. unfold scope_row. simpl.
      rewrite Ho, Hr. auto. }
    rewrite Hm. eauto.
  - rewrite Hn. simpl. rewrite filter_app, Hnil. simpl.
    assert (Hm : scope_matches None (rc_ID r) (scope_row scope) = true).
    { apply scope_matches_true. unfold scope_row. simpl.
      rewrite Hn, Hr. auto. }
    rewrite Hm. eauto.
Qed.

(** X1: Resolving the scope of the same (config, resource) pair again on the
    same connection, with a [rows.Next()] that does not fail, leaves the
    table and the sequence alone; if the second run returns a scope, it is
    the scope returned the first time, and it does return one when the
    store answers every call.  (A second run whose [rows.Next()] fails
    takes the no-row branch with the row present and is not covered
    here.) *)
Theorem scope_resolution_is_idempotent flag r resource s scope s1 res2 s2 :
  findOrCreateResourceConfigScope flag r resource s = (inr scope, s1) ->
  findOrCreateResourceConfigScope flag r resource s1 = (res2, s2) ->
  hd None (tl (faults s1)) = None ->
  scopes s2 = scopes s1
  /\ next_scope_id s2 = next_scope_id s1
  /\ (forall scope2, res2 = inr scope2 -> scope2 = scope)
  /\ (faults s1 = [] -> res2 = inr scope).
Proof.
  intros H1 H2 Hnext.
  destruct (focs_success_first _ _ _ _ _ _ H1) as (t & Ht).
  pose proof (focs_found _ _ _ _ _ _ _ _ Ht Hnext H2) as (Hs & Hn & Hres).
  apply focs_success in H1. destruct H1 as (Hr & Hpol & _).
  assert (Hsame : forall scope2, res2 = inr scope2 -> scope2 = scope).
  { intros scope2 E. rewrite (Hres scope2 E).
    destruct scope as [i o c]. simpl in *. subst. reflexivity. }
  split; [exact Hs|]. split; [exact Hn|]. split; [exact Hsame|].
  intros Hnil. destruct (focs_total flag r resource s1 Hnil) as (sc & s3 & E & _).
  rewrite E in H2. inversion H2; subst. f_equal. now apply Hsame.
Qed.

Lemma scope_resolution_is_idempotent_witness :
  hd None (tl (faults
     (snd (findOrCreateResourceConfigScope false Ex.git_config
             (Some Ex.res_a) Ex.empty_store)))) = None
  /\ fst (findOrCreateResourceConfigScope false Ex.git_config (Some Ex.res_a)
            (snd (findOrCreateResourceConfigScope false Ex.git_config
                    (Some Ex.res_a) Ex.empty_store)))
     = inr {| scope_id := 10; scope_resource := Some Ex.res_a;
              scope_resourceConfig := Ex.git_config |}
  /\ scopes (snd (findOrCreateResourceConfigScope false Ex.git_config
                    (Some Ex.res_a)
                    (snd (findOrCreateResourceConfigScope false Ex.git_config
                            (Some Ex.res_a) Ex.empty_store))))
     = scopes (snd (findOrCreateResourceConfigScope false Ex.git_config
                      (Some Ex.res_a) Ex.empty_store)).
Proof.
  pose (scope := {| scope_id := 10; scope_resource := Some Ex.res_a;
                    scope_resourceConfig := Ex.git_config |}).
  pose (s1 := snd (findOrCreateResourceConfigScope false Ex.git_config
                     (Some Ex.res_a) Ex.empty_store)).
  assert (H1 : findOrCreateResourceConfigScope false Ex.git_config
                 (Some Ex.res_a) Ex.empty_store = (inr scope, s1))
    by (vm_compute; reflexivity).
  assert (H2 : findOrCreateResourceConfigScope false Ex.git_config
                 (Some Ex.res_a) s1
               = (inr scope,
                  snd (findOrCreateResourceConfigScope false Ex.git_config
                         (Some Ex.res_a) s1)))
    by (vm_compute; reflexivity).
  assert (Hnext : hd None (tl (faults s1)) = None) by reflexivity.
  split; [exact Hnext|]. split; [exact (f_equal fst H2)|].
  exact (proj1 (scope_resolution_is_idempotent false Ex.git_config
                  (Some Ex.res_a) Ex.empty_store scope s1 _ _ H1 H2 Hnext)).
Defined.

(** X2: A resolution never removes a shared scope or a scope owned by another
    resource: the only rows it can delete are rows owned by the resource it
    was given. *)
Theorem scope_resolution_keeps_foreign_rows flag r resource s res s' row :
  findOrCreateResourceConfigScope flag r resource s = (res, s') ->
  In row (scopes s) ->
  (forall owner, resource = Some owner ->
                 row_resource_id row <> Some (Resource_ID owner)) ->
  In row (scopes s').
Proof.
  intros H Hin Hforeign. apply focs_shape in H.
  assert (Hkeep : forall o, uniqueResource_of flag r resource = Some o ->
            In row (filter (fun x => negb (owned_by (Resource_ID o) x))
                           (scopes s))).
  { intros o Ho. apply uniqueResource_of_some in Ho.
    apply filter_In. split; [exact Hin|].
    destruct (owned_by (Resource_ID o) row) eqn:E; [|reflexivity].
    exfalso. apply (Hforeign o Ho). unfold owned_by in E.
    now apply option_Z_eqb_eq in E. }
  destruct H as [(Hs & _) | [(o & Ho & _ & Hs) | [(o & Ho & _ & Hs) | (_ & _ & Hs)]]];
    rewrite Hs; auto.
  - apply in_or_app. left. auto.
  - apply in_or_app. now left.
Qed.

Lemma scope_resolution_keeps_foreign_rows_witness :
  In {| row_id := 3; row_resource_id := Some 2; row_resource_config_id := 11 |}
     (scopes (snd (findOrCreateResourceConfigScope false Ex.git_config
                     (Some Ex.res_a)
                     (Ex.store [] []
                        [{| row_id := 3; row_resource_id := Some 2;
                            row_resource_config_id := 11 |}] [])))).
Proof.
  apply (scope_resolution_keeps_foreign_rows false Ex.git_config
           (Some Ex.res_a)
           (Ex.store [] []
              [{| row_id := 3; row_resource_id := Some 2;
                  row_resource_config_id := 11 |}] [])
           (fst (findOrCreateResourceConfigScope false Ex.git_config
                   (Some Ex.res_a)
                   (Ex.store [] []
                      [{| row_id := 3; row_resource_id := Some 2;
                          row_resource_config_id := 11 |}] [])))
           _ _ (surjective_pairing _)).
  - left. reflexivity.
  - intros owner Ho. inversion Ho; subst. simpl. discriminate.
Defined.

Lemma at_most_one_owned_nil : at_most_one_owned [].
Proof. intros rid. simpl. lia. Qed.

Lemma scope_keys_unique_nil : scope_keys_unique [].
Proof. intros rid c. simpl. lia. Qed.

Lemma owned_count_preserved flag r resource s res s' rid :
  (List.length (owned_rows rid (scopes s)) <= 1)%nat ->
  findOrCreateResourceConfigScope flag r resource s = (res, s') ->
  (List.length (owned_rows rid (scopes s')) <= 1)%nat.
Proof.
  intros Hone H. apply focs_shape in H.
  destruct H as [(Hs & _) | [(o & _ & _ & Hs) | [(o & _ & _ & Hs) | (_ & _ & Hs)]]];
    rewrite Hs.
  - exact Hone.
  - pose proof (owned_rows_delete_le rid (Resource_ID o) (scopes s)). lia.
  - rewrite owned_rows_app, length_app.
    destruct (Z.eq_dec rid (Resource_ID o)) as [->|Hne].
    + rewrite owned_rows_after_delete.
      pose proof (owned_rows_one_le (Resource_ID o)
        {| row_id := next_scope_id s;
           row_resource_id := Some (Resource_ID o);
           row_resource_config_id := rc_ID r |}).
      simpl in *. lia.
    + rewrite owned_rows_other_delete by exact Hne.
      rewrite owned_rows_one_other by exact Hne. simpl. lia.
  - rewrite owned_rows_app, length_app. unfold owned_rows at 2. simpl. lia.
Qed.

Lemma private_result_owns_one flag r resource s scope s' owner :
  (List.length (owned_rows (Resource_ID owner) (scopes s)) <= 1)%nat ->
  findOrCreateResourceConfigScope flag r resource s = (inr scope, s') ->
  scope_resource scope = Some owner ->
  owned_rows (Resource_ID owner) (scopes s') = [scope_row scope].
Proof.
  intros Hone H Hown.
  pose proof (owned_count_preserved _ _ _ _ _ _ _ Hone H) as Hone'.
  apply singleton_of_short; [exact Hone'|].
  apply filter_In. split; [now apply (focs_success_row _ _ _ _ _ _ H)|].
  now apply owned_by_scope_row.
Qed.

(** X3: Switching a resource to another config: when a resource that owns at
    most one scope row resolves a private scope for one config and then a
    private scope for a config with another identity, the first scope's row
    is gone afterwards, nothing is found any more for the resource under
    the first config, and the resource owns exactly the second scope. *)
Theorem switching_config_retires_old_scope
    flag1 flag2 r1 r2 res s sc1 s1 sc2 s2 :
  (List.length (owned_rows (Resource_ID res) (scopes s)) <= 1)%nat ->
  rc_ID r1 <> rc_ID r2 ->
  findOrCreateResourceConfigScope flag1 r1 (Some res) s = (inr sc1, s1) ->
  scope_resource sc1 = Some res ->
  findOrCreateResourceConfigScope flag2 r2 (Some res) s1 = (inr sc2, s2) ->
  scope_resource sc2 = Some res ->
  owned_rows (Resource_ID res) (scopes s2) = [scope_row sc2]
  /\ ~ In (scope_row sc1) (scopes s2)
  /\ filter (scope_matches (Some (Resource_ID res)) (rc_ID r1)) (scopes s2)
     = [].
Proof.
  intros Hone Hne H1 Ho1 H2 Ho2.
  pose proof (owned_count_preserved _ _ _ _ _ _ _ Hone H1) as Hone1.
  pose proof (private_result_owns_one _ _ _ _ _ _ _ Hone1 H2 Ho2) as Hown2.
  pose proof (focs_success _ _ _ _ _ _ H1) as (Hr1 & _).
  pose proof (focs_success _ _ _ _ _ _ H2) as (Hr2 & _).
  split; [exact Hown2|]. split.
  - intros Hin.
    assert (Hin' : In (scope_row sc1) (owned_rows (Resource_ID res) (scopes s2))).
    { apply filter_In. split; [exact Hin|]. now apply owned_by_scope_row. }
    rewrite Hown2 in Hin'. destruct Hin' as [E|[]].
    apply (f_equal row_resource_config_id) in E. simpl in E.
    rewrite Hr1, Hr2 in E. congruence.
  - destruct (filter _ _) as [|x l] eqn:E; [reflexivity|].
    apply filter_cons_head in E. destruct E as [Hin Hm].
    apply scope_matches_true in Hm. destruct Hm as [Hrid Hcfg].
    assert (Hin' : In x (owned_rows (Resource_ID res) (scopes s2))).
    { apply filter_In. split; [exact Hin|]. unfold owned_by. rewrite Hrid.
      simpl. apply Z.eqb_refl. }
    rewrite Hown2 in Hin'. destruct Hin' as [<-|[]].
    simpl in Hcfg. rewrite Hr2 in Hcfg. congruence.
Qed.

Lemma switching_config_retires_old_scope_witness :
  le (List.length
        (owned_rows (Resource_ID Ex.res_a)
           (scopes (Ex.store [] []
              [{| row_id := 4; row_resource_id := Some 2;
                  row_resource_config_id := 10 |};
               {| row_id := 5; row_resource_id := Some 2;
                  row_resource_config_id := 11 |}] [])))) 1%nat
  /\ rc_ID Ex.time_config <> rc_ID Ex.git_config
  /\ fst (findOrCreateResourceConfigScope false Ex.time_config
            (Some Ex.res_a)
            (Ex.store [] []
               [{| row_id := 4; row_resource_id := Some 2;
                   row_resource_config_id := 10 |};
                {| row_id := 5; row_resource_id := Some 2;
                   row_resource_config_id := 11 |}] []))
     = inr {| scope_id := 10; scope_resource := Some Ex.res_a;
              scope_resourceConfig := Ex.time_config |}
  /\ ~ In (scope_row {| scope_id := 10; scope_resource := Some Ex.res_a;
                        scope_resourceConfig := Ex.time_config |})
          (scopes (snd (findOrCreateResourceConfigScope false Ex.git_config
                          (Some Ex.res_a)
                          (snd (findOrCreateResourceConfigScope false
                                  Ex.time_config (Some Ex.res_a)
                                  (Ex.store [] []
                                     [{| row_id := 4; row_resource_id := Some 2;
                                         row_resource_config_id := 10 |};
                                      {| row_id := 5; row_resource_id := Some 2;
                                         row_resource_config_id := 11 |}]
                                     [])))))).
Proof.
  pose (s := Ex.store [] []
               [{| row_id := 4; row_resource_id := Some 2;
                   row_resource_config_id := 10 |};
                {| row_id := 5; row_resource_id := Some 2;
                   row_resource_config_id := 11 |}] []).
  pose (sc1 := {| scope_id := 10; scope_resource := Some Ex.res_a;
                  scope_resourceConfig := Ex.time_config |}).
  pose (sc2 := {| scope_id := 11; scope_resource := Some Ex.res_a;
                  scope_resourceConfig := Ex.git_config |}).
  pose (s1 := snd (findOrCreateResourceConfigScope false Ex.time_config
                     (Some Ex.res_a) s)).
  assert (Hone : (List.length (owned_rows (Resource_ID Ex.res_a) (scopes s))
                  <= 1)%nat)
    by (vm_compute; lia).
  assert (Hne : rc_ID Ex.time_config <> rc_ID Ex.git_config)
    by (unfold Ex.time_config, Ex.git_config; simpl; lia).
  assert (H1 : findOrCreateResourceConfigScope false Ex.time_config
                 (Some Ex.res_a) s = (inr sc1, s1))
    by (vm_compute; reflexivity).
  assert (H2 : findOrCreateResourceConfigScope false Ex.git_config
                 (Some Ex.res_a) s1
               = (inr sc2,
                  snd (findOrCreateResourceConfigScope false Ex.git_config
                         (Some Ex.res_a) s1)))
    by (vm_compute; reflexivity).
  split; [exact Hone|]. split; [exact Hne|].
  split; [exact (f_equal fst H1)|].
  exact (proj1 (proj2
    (switching_config_retires_old_scope false false
       Ex.time_config Ex.git_config Ex.res_a s
       sc1 s1 sc2 _ Hone Hne H1 eq_refl H2 eq_refl))).
Defined.

Lemma shared_scope_is_common_witness :
  scope_id {| scope_id := 10; scope_resource := None;
              scope_resourceConfig := Ex.git_config |}
  = scope_id {| scope_id := 10; scope_resource := None;
                scope_resourceConfig := Ex.git_config |}
  /\ fst (findOrCreateResourceConfigScope true Ex.git_config (Some Ex.res_b)
            (snd (findOrCreateResourceConfigScope true Ex.git_config
                    (Some Ex.res_a) Ex.empty_store)))
     = inr {| scope_id := 10; scope_resource := None;
              scope_resourceConfig := Ex.git_config |}.
Proof.
  pose (sc := {| scope_id := 10; scope_resource := None;
                 scope_resourceConfig := Ex.git_config |}).
  pose (s1 := snd (findOrCreateResourceConfigScope true Ex.git_config
                     (Some Ex.res_a) Ex.empty_store)).
  assert (H1 : findOrCreateResourceConfigScope true Ex.git_config
                 (Some Ex.res_a) Ex.empty_store = (inr sc, s1))
    by (vm_compute; reflexivity).
  assert (H2 : findOrCreateResourceConfigScope true Ex.git_config
                 (Some Ex.res_b) s1
               = (inr sc,
                  snd (findOrCreateResourceConfigScope true Ex.git_config
                         (Some Ex.res_b) s1)))
    by (vm_compute; reflexivity).
  split.
  - exact (shared_scope_is_common true Ex.git_config (Some Ex.res_a)
             (Some Ex.res_b) Ex.empty_store sc s1 sc _ H1 H2
             eq_refl eq_refl).
  - exact (f_equal fst H2).
Defined.

(* ================================================================== *)
(** * The uniqueness constraints of resource_config_scopes *)

Lemma focs_shape_shared_fresh flag r resource s res s' :
  findOrCreateResourceConfigScope flag r resource s = (res, s') ->
  List.length (scopes s') = S (List.length (scopes s)) ->
  uniqueResource_of flag r resource = None ->
  filter (scope_matches None (rc_ID r)) (scopes s) = [].
Proof.
  unfold scopes.
  policy_cases flag r resource; run_focs; intros H; inv_run H;
    intros Hlen Hpol; try discriminate Hpol; try reflexivity;
    try (exfalso; lia);
    try (rewrite length_app in Hlen; simpl in Hlen; exfalso; lia).
  all: try assumption.
  all: match goal with
       | Hfind : find ?p ?l = None |- _ =>
           exact (find_none_filter_nil _ p l Hfind)
       end.
Qed.

Lemma filter_filter_le A (p q : A -> bool) l :
  (List.length (filter p (filter q l)) <= List.length (filter p l))%nat.
Proof.
  induction l as [|x l IH]; simpl; [lia|].
  destruct (q x) eqn:Q; simpl; destruct (p x) eqn:P; simpl; lia.
Qed.

(** X5: The two uniqueness constraints of resource_config_scopes are kept by
    every run of scope resolution, failed or not: the code never adds a
    second row for a (resource, config) pair, nor a second shared row for
    a config. *)
Theorem scope_keys_stay_unique flag r resource s res s' :
  scope_keys_unique (scopes s) ->
  findOrCreateResourceConfigScope flag r resource s = (res, s') ->
  scope_keys_unique (scopes s').
Proof.
  intros Huniq H rid c.
  pose proof (focs_shape _ _ _ _ _ _ H) as Hshape.
  specialize (Huniq rid c).
  destruct Hshape as [(Hs & _) | [(o & Ho & _ & Hs) | [(o & Ho & _ & Hs) | (Ho & _ & Hs)]]].
  - now rewrite Hs.
  - rewrite Hs.
    pose proof (filter_filter_le _ (scope_matches rid c)
                  (fun row => negb (owned_by (Resource_ID o) row)) (scopes s)).
    lia.
  - rewrite Hs, filter_app, length_app. simpl.
    destruct (scope_matches rid c _) eqn:Hm; simpl.
    + apply scope_matches_true in Hm. simpl in Hm. destruct Hm as [<- <-].
      rewrite (proj2 (length_zero_iff_nil _)); [lia|].
      destruct (filter _ (filter _ _)) as [|x l] eqn:E; [reflexivity|].
      apply filter_cons_head in E. destruct E as [Hin Hm].
      apply filter_In in Hin. destruct Hin as [_ Hno].
      apply scope_matches_true in Hm. destruct Hm as [Hm _].
      unfold owned_by in Hno. rewrite Hm in Hno. simpl in Hno.
      rewrite Z.eqb_refl in Hno. discriminate.
    + pose proof (filter_filter_le _ (scope_matches rid c)
                    (fun row => negb (owned_by (Resource_ID o) row)) (scopes s)).
      lia.
  - assert (Hlen : List.length (scopes s') = S (List.length (scopes s)))
      by (rewrite Hs, length_app; simpl; lia).
    pose proof (focs_shape_shared_fresh _ _ _ _ _ _ H Hlen Ho) as Hfresh.
    rewrite Hs, filter_app, length_app. simpl.
    destruct (scope_matches rid c _) eqn:Hm; simpl; [|lia].
    apply scope_matches_true in Hm. simpl in Hm. destruct Hm as [<- <-].
    rewrite Hfresh. simpl. lia.
Qed.

Lemma scope_keys_stay_unique_witness :
  scope_keys_unique (scopes Ex.empty_store)
  /\ scope_keys_unique
       (scopes (snd (findOrCreateResourceConfigScope true Ex.time_config
                       (Some Ex.res_a) Ex.empty_store))).
Proof.
  assert (H0 : scope_keys_unique (scopes Ex.empty_store))
    by exact scope_keys_unique_nil.
  split; [exact H0|].
  exact (scope_keys_stay_unique true Ex.time_config (Some Ex.res_a)
           Ex.empty_store _ _ H0 (surjective_pairing _)).
Defined.

(* ================================================================== *)
(** * FindOrCreateScope on a store that answers every statement *)

(** X6: On a store that answers every statement [FindOrCreateScope] returns a
    scope, the transaction is committed and closed, and the scope's row is
    in the committed table. *)
Theorem FindOrCreateScope_commits_scope flag r resource s :
  faults s = [] ->
  exists scope s',
    FindOrCreateScope flag r resource s = (inr scope, s')
    /\ scope_resourceConfig scope = r
    /\ scope_resource scope = uniqueResource_of flag r resource
    /\ In (scope_row scope) (scopes s')
    /\ open_tx s' = None
    /\ faults s' = [].
Proof.
  intros Hnil.
  destruct (FindOrCreateScope flag r resource s) as [res s'] eqn:Hrun.
  pose proof (FindOrCreateScope_run _ _ _ _ _ _ Hrun) as Hcases.
  assert (Hb : faults (begun s) = []) by (cbn; now rewrite Hnil).
  destruct (focs_total flag r resource (begun s) Hb) as (scope & s2 & E & Hf2).
  destruct Hcases as [(e & Hf & _)
                    | [(e & s2' & _ & E' & _)
                    | [(e & scope' & s2' & _ & E' & Hf' & _)
                    | (scope' & s2' & _ & E' & _ & -> & ->)]]].
  - rewrite Hnil in Hf. discriminate.
  - rewrite E in E'. discriminate.
  - rewrite E in E'. inversion E'; subst. rewrite Hf2 in Hf'. discriminate.
  - rewrite E in E'. inversion E'; subst scope' s2'.
    pose proof (focs_success _ _ _ _ _ _ E) as (Hr & Hpol & _).
    pose proof (focs_success_row _ _ _ _ _ _ E) as Hrow.
    exists scope, (set_open_tx None (after_commit_stmt s2)).
    split; [reflexivity|]. split; [exact Hr|]. split; [exact Hpol|].
    split; [exact Hrow|]. split; [reflexivity|]. cbn. now rewrite Hf2.
Qed.

Lemma FindOrCreateScope_commits_scope_witness :
  faults Ex.custom_store = []
  /\ exists scope s',
       FindOrCreateScope true Ex.custom_config (Some Ex.res_a) Ex.custom_store
       = (inr scope, s')
       /\ scope_resourceConfig scope = Ex.custom_config
       /\ scope_resource scope
          = uniqueResource_of true Ex.custom_config (Some Ex.res_a)
       /\ In (scope_row scope) (scopes s')
       /\ open_tx s' = None
       /\ faults s' = [].
Proof.
  split; [reflexivity|].
  exact (FindOrCreateScope_commits_scope true Ex.custom_config
           (Some Ex.res_a) Ex.custom_store eq_refl).
Defined.

(* ================================================================== *)
(** * Further properties of config resolution *)

Lemma error_eqb_eq a b : error_eqb a b = true <-> a = b.
Proof.
  destruct a, b; simpl; split; intros H; try discriminate; try reflexivity;
    try (apply String.eqb_eq in H; now subst);
    try (inversion H; apply String.eqb_refl).
Qed.

Lemma stmt_tables o s res s' :
  stmt o s = (res, s') ->
  tables s' = tables s /\ oplog s' = oplog s ++ [o]
  /\ next_config_id s' = next_config_id s
  /\ last_referenced_default s' = last_referenced_default s.
Proof.
  unfold stmt. destruct (hd None (faults s)); intros H; inversion H; subst;
    cbn; auto.
Qed.

Section ResolutionResults.

Variable Source : Type.
Variable mapHash : Source -> string.

(** The outcomes of [findWithParentID], whatever the store does. *)
Lemma findWithParentID_outcome src rc name pid s res s' :
  findWithParentID mapHash src rc name pid s = (res, s') ->
  tables s' = tables s
  /\ res <> inl ErrNoRows
  /\ forall found rc',
       res = inr (found, rc') ->
       CreatedByResourceCache rc' = CreatedByResourceCache rc
       /\ CreatedByBaseResourceType rc' = CreatedByBaseResourceType rc
       /\ (found = false -> rc' = rc)
       /\ (found = true ->
           exists col row,
             parent_column name = Some col
             /\ In row (resource_configs (tables s))
             /\ config_matches col pid (mapHash src) row = true
             /\ rc_ID rc' = cfg_id row
             /\ LastReferenced rc' = cfg_last_referenced row).
Proof.
  unfold findWithParentID, select_config, bind, fail.
  destruct (stmt (OpSelect T_resource_configs) s) as [[e|[]] s0] eqn:Hs;
    apply stmt_tables in Hs; destruct Hs as (Ht & _).
  - destruct (error_eqb e ErrNoRows) eqn:E; intros H; inversion H; subst.
    + split; [exact Ht|]. split; [discriminate|].
      intros found rc' Hr. inversion Hr; subst.
      repeat split; auto. discriminate.
    + split; [exact Ht|]. split.
      * intros Hc. inversion Hc; subst. discriminate.
      * intros found rc' Hr. discriminate.
  - destruct (parent_column name) as [col|] eqn:Hcol.
    + destruct (find _ _) as [row|] eqn:Hfind; cbn; intros H;
        inversion H; subst.
      * split; [exact Ht|]. split; [discriminate|].
        intros found rc' Hr. inversion Hr; subst.
        destruct rc as [i lr c b]. cbn.
        repeat split; try discriminate.
        intros _. apply find_some in Hfind. destruct Hfind as [Hin Hm].
        rewrite Ht in Hin. eauto 10.
      * split; [exact Ht|]. split; [discriminate|].
        intros found rc' Hr. inversion Hr; subst.
        repeat split; auto. discriminate.
    + cbn. intros H. inversion H; subst.
      split; [exact Ht|]. split; [discriminate|].
      intros found rc' Hr. discriminate.
Qed.

(** What the tail of [findOrCreate] returned, whatever the store did on
    the way. *)
Lemma findOrCreate_tail_result brt src rc0 pid0 name0 s rc s' :
  findOrCreate_tail mapHash brt src (rc0, pid0, name0) s = (inr rc, s') ->
  exists rcp pid name col row,
    match brt with
    | Some b =>
        exists used,
          rcp = set_createdByBaseResourceType rc0 (Some used)
          /\ Name used = brt_Name b /\ pid = ID used
          /\ name = "base_resource_type_id"
    | None => rcp = rc0 /\ pid = pid0 /\ name = name0
    end
    /\ parent_column name = Some col
    /\ In row (resource_configs (tables s'))
    /\ config_matches col pid (mapHash src) row = true
    /\ rc = set_id_lastReferenced rcp (cfg_id row) (cfg_last_referenced row).
Proof.
  unfold findOrCreate_tail. intros H.
  apply bind_inr in H. destruct H as ([[rcp pid] name] & sb & Hphase & H).
  assert (Hp : match brt with
               | Some b =>
                   exists used,
                     rcp = set_createdByBaseResourceType rc0 (Some used)
                     /\ Name used = brt_Name b /\ pid = ID used
                     /\ name = "base_resource_type_id"
               | None => rcp = rc0 /\ pid = pid0 /\ name = name0
               end).
  { destruct brt as [b|].
    - apply bind_inr in Hphase. destruct Hphase as (found & s0 & Hfind & Hret).
      unfold BaseResourceType_Find, bind, get in Hfind.
      destruct (stmt _ s) as [[e|[]] s00]; [discriminate|].
      inversion Hfind; subst; clear Hfind.
      destruct (find _ _) as [brow|]; [|discriminate].
      inversion Hret; subst. eexists. repeat split.
    - inversion Hphase; subst. auto. }
  apply bind_inr in H. destruct H as ([found rc1] & sc & Hfw & H).
  pose proof (findWithParentID_outcome _ _ _ _ _ _ _ Hfw)
    as (Htc & _ & Hres).
  destruct (Hres found rc1 eq_refl) as (_ & _ & Hnf & Hf).
  destruct found.
  - inversion H; subst.
    destruct (Hf eq_refl) as (col & row & Hcol & Hin & Hm & Hid & Hlr).
    exists rcp, pid, name, col, row. rewrite Htc.
    repeat (split; [assumption|]).
    destruct rc as [i lr c b0], rcp as [i' lr' c' b']. cbn in *.
    unfold findWithParentID in Hfw.
    destruct (select_config _ _ _ _) as [[e|[i0 lr0]] sx];
      [destruct (error_eqb e ErrNoRows); discriminate|].
    inversion Hfw; subst. reflexivity.
  - rewrite (Hnf eq_refl) in H. clear Hnf Hf Hres.
    apply bind_inr in H. destruct H as ([i lr] & su & Hup & Hret).
    inversion Hret; subst; clear Hret.
    unfold upsert_config, bind in Hup.
    destruct (stmt _ sc) as [[e|[]] s0] eqn:Hs; [discriminate|].
    apply stmt_tables in Hs. destruct Hs as (Ht0 & _ & Hn0 & Hd0).
    destruct (parent_column name) as [col|] eqn:Hcol; [|discriminate].
    destruct (find _ _) as [row|] eqn:Hfind; inversion Hup; subst; clear Hup.
    + apply find_some in Hfind. destruct Hfind as [Hin Hm].
      exists rcp, pid, name, col, row. auto.
    + exists rcp, pid, name, col,
        (new_config_row name (next_config_id s0)
           (last_referenced_default s0) pid (mapHash src)).
      split; [exact Hp|]. split; [exact Hcol|]. split.
      * cbn. apply in_or_app. right. now left.
      * split; [now apply new_config_row_matches | reflexivity].
Qed.

Lemma parent_column_base col :
  parent_column "base_resource_type_id" = Some col ->
  col = cfg_base_resource_type_id.
Proof. cbn. intros H. now inversion H. Qed.

Lemma parent_column_cache col :
  parent_column "resource_cache_id" = Some col ->
  col = cfg_resource_cache_id.
Proof. cbn. intros H. now inversion H. Qed.

(** The row behind a config that config resolution returned. *)
Lemma findOrCreate_result_row cache brt src s rc s' :
  findOrCreate mapHash (Build_ResourceConfigDescriptor cache brt src) s
    = (inr rc, s') ->
  exists row,
    In row (resource_configs (tables s'))
    /\ cfg_id row = rc_ID rc
    /\ cfg_last_referenced row = LastReferenced rc
    /\ cfg_source_hash row = mapHash src
    /\ match brt with
       | Some b =>
           exists used,
             CreatedByBaseResourceType rc = Some used
             /\ Name used = brt_Name b
             /\ cfg_base_resource_type_id row = Some (ID used)
       | None =>
           exists c used,
             cache = Some c
             /\ CreatedByResourceCache rc = Some used
             /\ CreatedByBaseResourceType rc = None
             /\ cfg_resource_cache_id row = Some (UsedResourceCache_ID used)
       end.
Proof.
  rewrite findOrCreate_unfold. intros H.
  apply bind_inr in H. destruct H as ([[rc0 pid0] name0] & sa & Hhead & Htail).
  apply findOrCreate_tail_result in Htail.
  destruct Htail as (rcp & pid & name & col & row & Hp & Hcol & Hin & Hm & ->).
  exists row. split; [exact Hin|].
  unfold config_matches in Hm. apply andb_true_iff in Hm.
  destruct Hm as [Hparent Hhash].
  apply option_Z_eqb_eq in Hparent. apply String.eqb_eq in Hhash.
  destruct rcp as [i lr c b0]. cbn.
  repeat (split; [reflexivity || assumption|]).
  destruct brt as [b|].
  - destruct Hp as (used & Hrcp & Hname & -> & ->).
    apply parent_column_base in Hcol. subst col.
    destruct rc0 as [i0 lr0 c0 b1]. cbn in Hrcp. inversion Hrcp; subst.
    exists used. auto.
  - destruct Hp as (Hrcp & -> & ->). subst rc0.
    destruct cache as [c1|].
    + apply bind_inr in Hhead. destruct Hhead as (uc & sx & _ & Hret).
      inversion Hret; subst.
      apply parent_column_cache in Hcol. subst col.
      exists c1, uc. auto.
    + inversion Hhead; subst. discriminate.
Qed.

(** X9: A descriptor without any origin never resolves: every run fails, and
    the tables stay as they were. *)
Theorem findOrCreate_without_origin_fails src s res s' :
  findOrCreate mapHash (Build_ResourceConfigDescriptor None None src) s
    = (res, s') ->
  (exists e, res = inl e) /\ tables s' = tables s.
Proof.
  intros H. split.
  - destruct res as [e|rc]; [eauto|].
    apply findOrCreate_result_row in H.
    destruct H as (row & _ & _ & _ & _ & (c & used & Hc & _)). discriminate.
  - rewrite findOrCreate_unfold in H.
    unfold bind at 1, ret at 1, findOrCreate_tail in H.
    unfold bind at 1, ret at 1 in H. unfold bind at 1 in H.
    destruct (findWithParentID _ _ _ _ _ s) as [[e|[found rc1]] s1] eqn:Hfw;
      pose proof (findWithParentID_outcome _ _ _ _ _ _ _ Hfw)
        as (Ht & _ & Hres).
    + inversion H; subst. exact Ht.
    + destruct (Hres found rc1 eq_refl) as (_ & _ & _ & Hf).
      destruct found.
      * destruct (Hf eq_refl) as (col & _ & Hcol & _). discriminate.
      * unfold upsert_config in H. unfold bind in H.
        destruct (stmt (OpUpsert T_resource_configs) s1)
          as [[e|[]] s2] eqn:Hs;
          apply stmt_tables in Hs; destruct Hs as (Ht2 & _);
          cbn in H; inversion H; subst; congruence.
Qed.

(** X10: The origin accessor cannot run into a nil dereference on a config that
    config resolution returned: it yields a base resource type, the one the
    lookup found under the name at the root of the descriptor's chain. *)
Theorem findOrCreate_result_has_origin d :
  forall s rc s',
    findOrCreate mapHash d s = (inr rc, s') ->
    exists B b,
      OriginBaseResourceType rc = Some B
      /\ descriptor_root d = Some b
      /\ Name B = brt_Name b.
Proof.
  induction d as [b src | d key b src IH] using descriptor_chain_ind;
    intros s rc s' H.
  - pose proof (findOrCreate_result_row _ _ _ _ _ _ H)
      as (row & _ & _ & _ & _ & Hb).
    destruct b as [b|].
    + destruct Hb as (used & Hc & Hn & _).
      exists used, b. destruct rc as [i lr c b0]. cbn in Hc. subst b0.
      split; [destruct c as [[? ?]|]; reflexivity | auto].
    + destruct Hb as (c & _ & Hc & _). discriminate.
  - pose proof (findOrCreate_result_row _ _ _ _ _ _ H)
      as (row & _ & _ & _ & _ & Hb).
    destruct b as [b|].
    + destruct Hb as (used & Hc & Hn & _).
      exists used, b. destruct rc as [i lr c b0]. cbn in Hc. subst b0.
      split; [destruct c as [[? ?]|]; reflexivity | auto].
    + rewrite findOrCreate_unfold in H.
      apply bind_inr in H. destruct H as ([[rc0 pid0] name0] & sa & Hhead & Htail).
      apply bind_inr in Hhead. destruct Hhead as (uc & sx & Hcache & Hret).
      inversion Hret; subst; clear Hret.
      rewrite ResourceCacheDescriptor_findOrCreate_unfold in Hcache.
      apply bind_inr in Hcache. destruct Hcache as (rcd & sd & Hd & Hrow).
      apply bind_inr in Hrow. destruct Hrow as (i & sr & _ & Hret).
      inversion Hret; subst; clear Hret.
      destruct (IH _ _ _ Hd) as (B & b' & Ho & Hroot & Hn).
      apply findOrCreate_tail_result in Htail.
      destruct Htail as (rcp & pid & name & col & row' & (-> & _ & _) & _ & _ & _ & ->).
      exists B, b'. cbn. auto.
Qed.

End ResolutionResults.

(** X7: [findWithParentID] never reports a missing row as an error: whatever
    the store does, it issues one select, the result is not [sql.ErrNoRows]
    and the tables are untouched; "not found" hands [rc] back as it was, and
    "found" fills in the identity and last-referenced value of a row of
    resource_configs that carries the parent id and the hash of the source,
    leaving the origin fields alone.  When the store answers the select, a
    key no row carries gives "not found" and a key some row carries gives
    "found" with the first such row. *)
Theorem findWithParentID_not_found_is_no_error
    Source (mapHash : Source -> string) src rc name pid s res s' :
  findWithParentID mapHash src rc name pid s = (res, s') ->
  tables s' = tables s
  /\ oplog s' = oplog s ++ [OpSelect T_resource_configs]
  /\ res <> inl ErrNoRows
  /\ (forall found rc',
       res = inr (found, rc') ->
       CreatedByResourceCache rc' = CreatedByResourceCache rc
       /\ CreatedByBaseResourceType rc' = CreatedByBaseResourceType rc
       /\ (found = false -> rc' = rc)
       /\ (found = true ->
           exists col row,
             parent_column name = Some col
             /\ In row (resource_configs (tables s))
             /\ config_matches col pid (mapHash src) row = true
             /\ rc_ID rc' = cfg_id row
             /\ LastReferenced rc' = cfg_last_referenced row))
  /\ (forall col,
        hd None (faults s) = None ->
        parent_column name = Some col ->
        find (config_matches col pid (mapHash src))
             (resource_configs (tables s)) = None ->
        res = inr (false, rc))
  /\ (forall col row,
        hd None (faults s) = None ->
        parent_column name = Some col ->
        find (config_matches col pid (mapHash src))
             (resource_configs (tables s)) = Some row ->
        res = inr (true, set_id_lastReferenced rc (cfg_id row)
                           (cfg_last_referenced row))).
Proof.
  intros H.
  pose proof (findWithParentID_outcome _ mapHash _ _ _ _ _ _ _ H)
    as (Ht & Hne & Hres).
  split; [exact Ht|].
  unfold findWithParentID, select_config, bind, fail in H.
  destruct (stmt_cases (OpSelect T_resource_configs) s)
    as [(e & Hf & Hs) | (Hf & Hs)]; rewrite Hs in H.
  - split.
    + destruct (error_eqb e ErrNoRows); inversion H; subst; reflexivity.
    + split; [exact Hne|]. split; [exact Hres|].
      split; intros; congruence.
  - split.
    + destruct (parent_column name) as [col|].
      * cbn -[find] in H. destruct (find _ _); inversion H; subst; reflexivity.
      * inversion H; subst; reflexivity.
    + split; [exact Hne|]. split; [exact Hres|]. split.
      * intros col _ Hcol Hfind. rewrite Hcol in H. cbn -[find] in H.
        rewrite Hfind in H. cbn in H. inversion H; subst. reflexivity.
      * intros col row _ Hcol Hfind. rewrite Hcol in H. cbn -[find] in H.
        rewrite Hfind in H. inversion H; subst. reflexivity.
Qed.

(** X8: A config returned by config resolution stands for a row of
    resource_configs: the row carries the returned identity and
    last-referenced value and the hash of the descriptor's source, and its
    parent column holds the origin recorded in the returned object, the base
    resource type when the descriptor names one and the resource cache
    otherwise.  Rows that were in the table before are still there,
    unchanged.  This holds whatever statements failed on the way. *)
Theorem findOrCreate_returns_row_of_descriptor
    Source (mapHash : Source -> string) cache brt src s rc s' :
  findOrCreate mapHash (Build_ResourceConfigDescriptor cache brt src) s
    = (inr rc, s') ->
  (forall old, In old (resource_configs (tables s)) ->
               In old (resource_configs (tables s')))
  /\ exists row,
    In row (resource_configs (tables s'))
    /\ cfg_id row = rc_ID rc
    /\ cfg_last_referenced row = LastReferenced rc
    /\ cfg_source_hash row = mapHash src
    /\ match brt with
       | Some b =>
           exists used,
             CreatedByBaseResourceType rc = Some used
             /\ Name used = brt_Name b
             /\ cfg_base_resource_type_id row = Some (ID used)
       | None =>
           exists c used,
             cache = Some c
             /\ CreatedByResourceCache rc = Some used
             /\ CreatedByBaseResourceType rc = None
             /\ cfg_resource_cache_id row = Some (UsedResourceCache_ID used)
       end.
Proof.
  intros H. split.
  - pose proof (findOrCreate_frame _ mapHash _ _ _ _ H)
      as (_ & _ & _ & (l & Hl) & _).
    intros old Hin. rewrite Hl. apply in_or_app. now left.
  - now apply findOrCreate_result_row in H.
Qed.

Lemma findWithParentID_not_found_is_no_error_witness :
  findWithParentID Ex.hash "uri: example" Ex.git_config
    "base_resource_type_id" 1 (Ex.with_faults [Some ErrNoRows] Ex.custom_store)
  = (inr (false, Ex.git_config),
     snd (findWithParentID Ex.hash "uri: example" Ex.git_config
            "base_resource_type_id" 1
            (Ex.with_faults [Some ErrNoRows] Ex.custom_store)))
  /\ tables (snd (findWithParentID Ex.hash "uri: example" Ex.git_config
                    "base_resource_type_id" 1
                    (Ex.with_faults [Some ErrNoRows] Ex.custom_store)))
     = tables (Ex.with_faults [Some ErrNoRows] Ex.custom_store).
Proof.
  assert (Hrun :
    findWithParentID Ex.hash "uri: example" Ex.git_config
      "base_resource_type_id" 1
      (Ex.with_faults [Some ErrNoRows] Ex.custom_store)
    = (inr (false, Ex.git_config),
       snd (findWithParentID Ex.hash "uri: example" Ex.git_config
              "base_resource_type_id" 1
              (Ex.with_faults [Some ErrNoRows] Ex.custom_store))))
    by (vm_compute; reflexivity).
  split; [exact Hrun|].
  exact (proj1 (findWithParentID_not_found_is_no_error string Ex.hash
                  "uri: example" Ex.git_config "base_resource_type_id" 1
                  (Ex.with_faults [Some ErrNoRows] Ex.custom_store)
                  _ _ Hrun)).
Defined.

Lemma findOrCreate_returns_row_of_descriptor_witness :
  findOrCreate Ex.hash Ex.custom_descriptor Ex.empty_store
  = (inr Ex.custom_config, Ex.custom_store)
  /\ exists row,
       In row (resource_configs (tables Ex.custom_store))
       /\ cfg_id row = rc_ID Ex.custom_config
       /\ cfg_last_referenced row = LastReferenced Ex.custom_config
       /\ cfg_source_hash row = Ex.hash "uri: example"
       /\ exists c used,
            Some (Build_ResourceCacheDescriptor Ex.time_descriptor "v1")
              = Some c
            /\ CreatedByResourceCache Ex.custom_config = Some used
            /\ CreatedByBaseResourceType Ex.custom_config = None
            /\ cfg_resource_cache_id row = Some (UsedResourceCache_ID used).
Proof.
  assert (Hrun : findOrCreate Ex.hash Ex.custom_descriptor Ex.empty_store
                 = (inr Ex.custom_config, Ex.custom_store))
    by (vm_compute; reflexivity).
  split; [exact Hrun|].
  exact (proj2 (findOrCreate_returns_row_of_descriptor string Ex.hash
           (Some (Build_ResourceCacheDescriptor Ex.time_descriptor "v1"))
           None "uri: example" Ex.empty_store Ex.custom_config
           Ex.custom_store Hrun)).
Defined.

Lemma findOrCreate_without_origin_fails_witness :
  (exists e,
     fst (findOrCreate Ex.hash
            (Build_ResourceConfigDescriptor None None "uri: example")
            Ex.custom_store) = inl e)
  /\ tables (snd (findOrCreate Ex.hash
                    (Build_ResourceConfigDescriptor None None "uri: example")
                    Ex.custom_store))
     = tables Ex.custom_store.
Proof.
  exact (findOrCreate_without_origin_fails string Ex.hash "uri: example"
           Ex.custom_store _ _ (surjective_pairing _)).
Defined.

Lemma findOrCreate_result_has_origin_witness :
  findOrCreate Ex.hash Ex.custom_descriptor Ex.empty_store
  = (inr Ex.custom_config, Ex.custom_store)
  /\ exists B b,
       OriginBaseResourceType Ex.custom_config = Some B
       /\ descriptor_root Ex.custom_descriptor = Some b
       /\ Name B = brt_Name b.
Proof.
  assert (Hrun : findOrCreate Ex.hash Ex.custom_descriptor Ex.empty_store
                 = (inr Ex.custom_config, Ex.custom_store))
    by (vm_compute; reflexivity).
  split; [exact Hrun|].
  exact (findOrCreate_result_has_origin string Ex.hash Ex.custom_descriptor
           Ex.empty_store Ex.custom_config Ex.custom_store Hrun).
Defined.

(* ================================================================== *)
(** * An unknown base type at the root of a chain *)

(** X11: When every level of a descriptor's chain names exactly one origin and
    the base resource type at the root has no row, resolution on a store
    that answers every statement fails with [BaseResourceTypeNotFoundError]
    for the root's name, through every resource cache level, and no table
    has changed. *)
Theorem unknown_root_fails_through_chain Source (mapHash : Source -> string)
    d b :
  single_origin d = true ->
  descriptor_root d = Some b ->
  forall s,
    faults s = [] ->
    (forall row, In row (base_resource_types (tables s)) ->
                 brt_name row <> brt_Name b) ->
    exists s',
      findOrCreate mapHash d s
      = (inl (BaseResourceTypeNotFoundError (brt_Name b)), s')
      /\ tables s' = tables s
      /\ faults s' = [].
Proof.
  induction d as [b0 src | d key b0 src IH] using descriptor_chain_ind;
    intros Hsingle Hroot s Hnil Hunknown.
  - destruct b0 as [b0|]; [|discriminate Hsingle].
    cbn in Hroot. inversion Hroot; subst b0.
    apply lookup_base_resource_type_unknown in Hunknown.
    rewrite findOrCreate_unfold.
    unfold bind at 1, ret at 1, findOrCreate_tail.
    unfold bind at 1. unfold bind at 1.
    rewrite (BaseResourceType_Find_quiet _ _ Hnil), Hunknown.
    eexists. split; [reflexivity|]. cbn. auto.
  - destruct b0 as [b0|]; [discriminate Hsingle|].
    cbn in Hsingle, Hroot.
    destruct (IH Hsingle Hroot s Hnil Hunknown) as (s' & E & Ht & Hf).
    exists s'. split; [|auto].
    rewrite findOrCreate_unfold.
    apply bind_err. apply bind_err.
    rewrite ResourceCacheDescriptor_findOrCreate_unfold.
    now apply bind_err.
Qed.

Lemma unknown_root_fails_through_chain_witness :
  single_origin
    (Build_ResourceConfigDescriptor
       (Some (Build_ResourceCacheDescriptor Ex.unknown_descriptor "v1"))
       None "uri: other") = true
  /\ faults Ex.custom_store = []
  /\ exists s',
       findOrCreate Ex.hash
         (Build_ResourceConfigDescriptor
            (Some (Build_ResourceCacheDescriptor Ex.unknown_descriptor "v1"))
            None "uri: other") Ex.custom_store
       = (inl (BaseResourceTypeNotFoundError "svn"), s')
       /\ tables s' = tables Ex.custom_store
       /\ faults s' = [].
Proof.
  assert (Hunknown :
    forall row, In row (base_resource_types (tables Ex.custom_store)) ->
                brt_name row <> brt_Name {| brt_Name := "svn" |}).
  { intros row [<-|[<-|[]]]; simpl; discriminate. }
  split; [reflexivity|]. split; [reflexivity|].
  exact (unknown_root_fails_through_chain string Ex.hash
           (Build_ResourceConfigDescriptor
              (Some (Build_ResourceCacheDescriptor Ex.unknown_descriptor "v1"))
              None "uri: other")
           {| brt_Name := "svn" |} eq_refl eq_refl Ex.custom_store eq_refl
           Hunknown).
Defined.

(* ================================================================== *)
(** * Refreshing a config that is gone *)

(** X15: When no row of resource_configs carries the config's identity (the
    collector removed it) and the store answers the statement, the refresh
    fails with [sql.ErrNoRows] and changes no table. *)
Theorem updateLastReferenced_missing_row r s res s' :
  (forall row, In row (resource_configs (tables s)) -> cfg_id row <> rc_ID r) ->
  hd None (faults s) = None ->
  updateLastReferenced r s = (res, s') ->
  res = inl ErrNoRows
  /\ tables s' = tables s
  /\ oplog s' = oplog s ++ [OpUpdate T_resource_configs].
Proof.
  intros Hmissing Hf.
  unfold updateLastReferenced, update_last_referenced, bind.
  destruct (stmt_cases (OpUpdate T_resource_configs) s)
    as [(e & Hf' & Hs) | (_ & Hs)]; [congruence|].
  rewrite Hs. cbn -[existsb].
  destruct (existsb _ _) eqn:Hex.
  - apply existsb_exists in Hex. destruct Hex as (row & Hin & Hid).
    apply Z.eqb_eq in Hid. now apply Hmissing in Hin.
  - intros H. inversion H; subst. cbn. auto.
Qed.

Lemma updateLastReferenced_missing_row_witness :
  (forall row, In row (resource_configs (tables Ex.empty_store)) ->
               cfg_id row <> rc_ID Ex.custom_config)
  /\ hd None (faults Ex.empty_store) = None
  /\ fst (updateLastReferenced Ex.custom_config Ex.empty_store)
     = inl ErrNoRows.
Proof.
  assert (Hmissing :
    forall row, In row (resource_configs (tables Ex.empty_store)) ->
                cfg_id row <> rc_ID Ex.custom_config)
    by (intros row []).
  split; [exact Hmissing|]. split; [reflexivity|].
  exact (proj1 (updateLastReferenced_missing_row Ex.custom_config
                  Ex.empty_store _ _ Hmissing eq_refl
                  (surjective_pairing _))).
Defined.

(* ================================================================== *)
(** * The error message *)

(** X17: The message of [BaseResourceTypeNotFoundError] determines the name:
    two errors with the same message name the same type. *)
Theorem BaseResourceTypeNotFoundError_Error_injective n1 n2 :
  BaseResourceTypeNotFoundError_Error n1
  = BaseResourceTypeNotFoundError_Error n2 ->
  n1 = n2.
Proof.
  unfold BaseResourceTypeNotFoundError_Error. simpl. intros H.
  now inversion H.
Qed.

Lemma BaseResourceTypeNotFoundError_Error_injective_witness :
  BaseResourceTypeNotFoundError_Error "git"
  = "base resource type not found: git"
  /\ "git" = "git".
Proof.
  split; [reflexivity|].
  exact (BaseResourceTypeNotFoundError_Error_injective "git" "git" eq_refl).
Defined.

(* ================================================================== *)
(** * Invariants of resource_configs *)

Section KeepsAny.

Variable R : St -> St -> Prop.
Hypothesis R_refl : forall s, R s s.
Hypothesis R_trans : forall s1 s2 s3, R s1 s2 -> R s2 s3 -> R s1 s3.
Hypothesis R_stmt :
  forall o s, R s (set_faults (tl (faults s)) (log_op o s)).
Hypothesis R_config :
  forall s name col pid hash,
    parent_column name = Some col ->
    find (config_matches col pid hash) (resource_configs (tables s)) = None ->
    R s (bump_config_id
           (set_configs
              (resource_configs (tables s)
               ++ [new_config_row name (next_config_id s)
                     (last_referenced_default s) pid hash]) s)).
Hypothesis R_cache :
  forall s cid key,
    R s (bump_cache_id
           (set_caches
              (resource_caches (tables s)
               ++ [{| cache_id := next_cache_id s;
                      cache_resource_config_id := cid;
                      cache_key := key |}]) s)).

Lemma any_ret A (a : A) : keeps R (ret a).
Proof. intros s res s' H. inversion H; subst. apply R_refl. Qed.

Lemma any_fail A e : keeps R (@fail A e).
Proof. intros s res s' H. inversion H; subst. apply R_refl. Qed.

Lemma any_get A (f : St -> A) : keeps R (get f).
Proof. intros s res s' H. inversion H; subst. apply R_refl. Qed.

Lemma any_bind A B (m : M A) (k : A -> M B) :
  keeps R m -> (forall a, keeps R (k a)) -> keeps R (bind m k).
Proof.
  intros Hm Hk s res s' H. unfold bind in H.
  destruct (m s) as [[e|a] s1] eqn:E.
  - inversion H; subst. exact (Hm _ _ _ E).
  - eapply R_trans; [exact (Hm _ _ _ E) | exact (Hk a _ _ _ H)].
Qed.

Lemma any_stmt o : keeps R (stmt o).
Proof.
  intros s res s' H. unfold stmt in H.
  destruct (hd None (faults s)); inversion H; subst; apply R_stmt.
Qed.

Lemma any_BaseResourceType_Find b : keeps R (BaseResourceType_Find b).
Proof.
  unfold BaseResourceType_Find. apply any_bind; [apply any_stmt|].
  intros _. apply any_get.
Qed.

Lemma any_select_config name pid hash : keeps R (select_config name pid hash).
Proof.
  unfold select_config. apply any_bind; [apply any_stmt|].
  intros _. destruct (parent_column name) as [col|]; [|apply any_fail].
  intros s res s' H. destruct (find _ _); inversion H; subst; apply R_refl.
Qed.

Lemma any_upsert_config name pid hash : keeps R (upsert_config name pid hash).
Proof.
  unfold upsert_config. apply any_bind; [apply any_stmt|].
  intros _. destruct (parent_column name) as [col|] eqn:Hcol; [|apply any_fail].
  intros s res s' H. destruct (find _ _) eqn:Hfind; inversion H; subst.
  - apply R_refl.
  - now apply (R_config _ _ col).
Qed.

Lemma any_find_or_create_cache_row cid key :
  keeps R (find_or_create_cache_row cid key).
Proof.
  unfold find_or_create_cache_row. apply any_bind; [apply any_stmt|].
  intros _. apply any_bind; [apply any_get|].
  intros [row|]; [apply any_ret|].
  apply any_bind; [apply any_stmt|].
  intros _ s res s' H. destruct (find _ _); inversion H; subst.
  - apply R_refl.
  - apply R_cache.
Qed.

Variable Source : Type.
Variable mapHash : Source -> string.

Lemma any_findWithParentID src rc name pid :
  keeps R (findWithParentID mapHash src rc name pid).
Proof.
  intros s res s' H. unfold findWithParentID in H.
  destruct (select_config name pid (mapHash src) s) as [[e|[i lr]] s1] eqn:E.
  - pose proof (any_select_config _ _ _ _ _ _ E) as Hk.
    destruct (error_eqb e ErrNoRows); inversion H; subst; exact Hk.
  - inversion H; subst. exact (any_select_config _ _ _ _ _ _ E).
Qed.

Lemma any_findOrCreate_tail brt src x :
  keeps R (findOrCreate_tail mapHash brt src x).
Proof.
  destruct x as [[rc pid] name]. unfold findOrCreate_tail.
  apply any_bind.
  - destruct brt as [b|]; [|apply any_ret].
    apply any_bind; [apply any_BaseResourceType_Find|].
    intros [used|]; [apply any_ret | apply any_fail].
  - intros [[rc' pid'] name']. apply any_bind.
    + apply any_findWithParentID.
    + intros [[|] rc'']; [apply any_ret|].
      apply any_bind; [apply any_upsert_config|].
      intros [i lr]. apply any_ret.
Qed.

(** Whatever is kept by logging a statement, by adding a config row for a
    key no row has, and by adding a cache row, is kept by every run of
    config resolution. *)
Lemma any_findOrCreate d : keeps R (findOrCreate mapHash d).
Proof.
  induction d as [b src | d key b src IH] using descriptor_chain_ind;
    rewrite findOrCreate_unfold.
  - apply any_bind; [apply any_ret|].
    intros x. apply any_findOrCreate_tail.
  - apply any_bind.
    + apply any_bind.
      * rewrite ResourceCacheDescriptor_findOrCreate_unfold.
        apply any_bind; [exact IH|]. intros rc.
        apply any_bind; [apply any_find_or_create_cache_row|].
        intros i. apply any_ret.
      * intros uc. apply any_ret.
    + intros x. apply any_findOrCreate_tail.
Qed.

End KeepsAny.

Lemma new_config_row_matches_inv name0 col0 i lr pid0 hash0 name col pid hash :
  parent_column name0 = Some col0 ->
  parent_column name = Some col ->
  config_matches col pid hash (new_config_row name0 i lr pid0 hash0) = true ->
  col = col0 /\ pid = pid0 /\ hash = hash0.
Proof.
  unfold parent_column, config_matches, new_config_row.
  destruct (String.eqb name0 "resource_cache_id") eqn:E0,
           (String.eqb name "resource_cache_id") eqn:E1;
    cbn; intros H0 H1 Hm.
  - inversion H0; inversion H1; subst. cbn in Hm.
    apply andb_true_iff in Hm. destruct Hm as [Hp Hh].
    apply Z.eqb_eq in Hp. apply String.eqb_eq in Hh. auto.
  - destruct (String.eqb name "base_resource_type_id"); [|discriminate].
    inversion H0; inversion H1; subst. cbn in Hm.
    apply String.eqb_eq in E0. subst name0. cbn in Hm. discriminate.
  - destruct (String.eqb name0 "base_resource_type_id") eqn:E2; [|discriminate].
    inversion H0; inversion H1; subst. cbn in Hm. discriminate.
  - destruct (String.eqb name0 "base_resource_type_id") eqn:E2; [|discriminate].
    destruct (String.eqb name "base_resource_type_id"); [|discriminate].
    inversion H0; inversion H1; subst. cbn in Hm.
    apply andb_true_iff in Hm. destruct Hm as [Hp Hh].
    apply Z.eqb_eq in Hp. apply String.eqb_eq in Hh. auto.
Qed.

(** X12: The uniqueness constraints of resource_configs are kept by every run of
    config resolution, failed or not, for every descriptor: the code never
    adds a second row for a (parent, source hash) key, also when a lookup
    wrongly reported the row as missing. *)
Theorem config_keys_stay_unique Source (mapHash : Source -> string)
    d s res s' :
  config_keys_unique (resource_configs (tables s)) ->
  findOrCreate mapHash d s = (res, s') ->
  config_keys_unique (resource_configs (tables s')).
Proof.
  intros Huniq H. revert Huniq.
  apply (any_findOrCreate
           (fun s s' => config_keys_unique (resource_configs (tables s)) ->
                        config_keys_unique (resource_configs (tables s'))))
    with (mapHash := mapHash) (d := d) (res := res); auto.
  - intros s0 name0 col0 pid0 hash0 Hcol0 Hfind Hu name col pid hash Hcol.
    cbn. rewrite filter_app, length_app. simpl.
    destruct (config_matches col pid hash _) eqn:Hm; simpl.
    + destruct (new_config_row_matches_inv _ _ _ _ _ _ _ _ _ _ Hcol0 Hcol Hm)
        as (-> & -> & ->).
      rewrite (find_none_filter_nil _ _ _ Hfind). simpl. lia.
    + specialize (Hu name col pid hash Hcol). lia.
Qed.

Lemma config_keys_stay_unique_witness :
  config_keys_unique (resource_configs (tables Ex.empty_store))
  /\ config_keys_unique (resource_configs (tables Ex.custom_store)).
Proof.
  assert (H0 : config_keys_unique (resource_configs (tables Ex.empty_store)))
    by (intros name col pid hash _; simpl; lia).
  split; [exact H0|].
  exact (config_keys_stay_unique string Ex.hash Ex.custom_descriptor
           Ex.empty_store _ _ H0 (surjective_pairing _)).
Defined.

Lemma config_ids_wf_preserved Source (mapHash : Source -> string) d s res s' :
  config_ids_wf s ->
  findOrCreate mapHash d s = (res, s') ->
  config_ids_wf s'.
Proof.
  intros Hwf H. revert Hwf.
  apply (any_findOrCreate (fun s s' => config_ids_wf s -> config_ids_wf s'))
    with (mapHash := mapHash) (d := d) (res := res); auto.
  intros s0 name col pid hash _ _ [Hnd Hlt]. unfold config_ids_wf. cbn.
  split.
  - rewrite map_app. simpl. apply NoDup_app.
    + exact Hnd.
    + repeat constructor. simpl. tauto.
    + intros x Hin [<-|[]]. apply in_map_iff in Hin.
      destruct Hin as (row & Hid & Hin). specialize (Hlt row Hin).
      unfold new_config_row in Hid. simpl in Hid. lia.
  - intros row Hin. apply in_app_or in Hin. destruct Hin as [Hin|[<-|[]]].
    + specialize (Hlt row Hin). lia.
    + simpl. lia.
Qed.

(** X13: Configs resolved one after the other for sources with different
    hashes have different identities, whatever their origins, as long as
    the identities in resource_configs are unique and below the
    sequence. *)
Theorem different_hash_gives_different_config
    Source (mapHash : Source -> string)
    cache1 brt1 src1 cache2 brt2 src2 s rc1 s1 rc2 s2 :
  config_ids_wf s ->
  mapHash src1 <> mapHash src2 ->
  findOrCreate mapHash (Build_ResourceConfigDescriptor cache1 brt1 src1) s
    = (inr rc1, s1) ->
  findOrCreate mapHash (Build_ResourceConfigDescriptor cache2 brt2 src2) s1
    = (inr rc2, s2) ->
  rc_ID rc1 <> rc_ID rc2.
Proof.
  intros Hwf Hne H1 H2 Heq.
  pose proof (config_ids_wf_preserved _ _ _ _ _ _ Hwf H1) as Hwf1.
  pose proof (config_ids_wf_preserved _ _ _ _ _ _ Hwf1 H2) as [Hnd _].
  pose proof (findOrCreate_frame _ mapHash _ _ _ _ H2)
    as (_ & _ & _ & (l & Hl) & _).
  apply findOrCreate_result_row in H1.
  apply findOrCreate_result_row in H2.
  destruct H1 as (row1 & Hin1 & Hid1 & _ & Hh1 & _).
  destruct H2 as (row2 & Hin2 & Hid2 & _ & Hh2 & _).
  assert (Hin1' : In row1 (resource_configs (tables s2)))
    by (rewrite Hl; apply in_or_app; now left).
  assert (Hsame : row1 = row2).
  { apply (NoDup_map_same _ _ cfg_id _ _ _ Hnd Hin1' Hin2). congruence. }
  subst row2. congruence.
Qed.

Lemma different_hash_gives_different_config_witness :
  config_ids_wf Ex.empty_store
  /\ Ex.hash "interval: 1m" <> Ex.hash "interval: 5m"
  /\ rc_ID Ex.time_config
     <> rc_ID (Build_resourceConfig 11 0 None (Some Ex.time)).
Proof.
  assert (Hwf : config_ids_wf Ex.empty_store)
    by (split; [constructor | intros row []]).
  assert (Hne : Ex.hash "interval: 1m" <> Ex.hash "interval: 5m")
    by (unfold Ex.hash; discriminate).
  pose (s1 := snd (findOrCreate Ex.hash Ex.time_descriptor Ex.empty_store)).
  assert (H1 : findOrCreate Ex.hash
                 (Build_ResourceConfigDescriptor None
                    (Some {| brt_Name := "time" |}) "interval: 1m")
                 Ex.empty_store = (inr Ex.time_config, s1))
    by (vm_compute; reflexivity).
  assert (H2 : findOrCreate Ex.hash
                 (Build_ResourceConfigDescriptor None
                    (Some {| brt_Name := "time" |}) "interval: 5m") s1
               = (inr (Build_resourceConfig 11 0 None (Some Ex.time)),
                  snd (findOrCreate Ex.hash
                         (Build_ResourceConfigDescriptor None
                            (Some {| brt_Name := "time" |}) "interval: 5m")
                         s1)))
    by (vm_compute; reflexivity).
  split; [exact Hwf|]. split; [exact Hne|].
  exact (different_hash_gives_different_config string Ex.hash
           None (Some {| brt_Name := "time" |}) "interval: 1m"
           None (Some {| brt_Name := "time" |}) "interval: 5m"
           Ex.empty_store Ex.time_config s1 _ _ Hwf Hne H1 H2).
Defined.

(* ================================================================== *)
(** * One record for equal configurations *)

Lemma bind_ext A B (m : M A) (k1 k2 : A -> M B) s :
  (forall a s', k1 a s' = k2 a s') -> bind m k1 s = bind m k2 s.
Proof.
  intros H. unfold bind. destruct (m s) as [[e|a] s1]; [reflexivity|apply H].
Qed.

Lemma findOrCreate_tail_hash Source (mapHash : Source -> string)
    brt src1 src2 x s :
  mapHash src1 = mapHash src2 ->
  findOrCreate_tail mapHash brt src1 x s
  = findOrCreate_tail mapHash brt src2 x s.
Proof.
  intros Heq. destruct x as [[rc pid] name].
  unfold findOrCreate_tail, findWithParentID. now rewrite Heq.
Qed.

(** X14: Two descriptors with the same origin whose sources have the same hash
    are one configuration: on a store that answers every statement, once
    the first has been resolved, resolving the second returns the same
    config object and writes nothing. *)
Theorem equal_hash_resolves_to_same_config
    Source (mapHash : Source -> string) cache brt src1 src2 s rc s1 :
  mapHash src1 = mapHash src2 ->
  faults s = [] ->
  findOrCreate mapHash (Build_ResourceConfigDescriptor cache brt src1) s
    = (inr rc, s1) ->
  exists s2,
    findOrCreate mapHash (Build_ResourceConfigDescriptor cache brt src2) s1
      = (inr rc, s2)
    /\ tables s2 = tables s1.
Proof.
  intros Heq Hnil H.
  destruct (findOrCreate_settles _ mapHash _ _ _ _ Hnil H) as (Hf1 & Hset).
  destruct (Hset s1 Hf1 (extends_refl _)) as (s2 & E & Ht & _).
  exists s2. split; [|exact Ht]. rewrite <- E.
  rewrite (findOrCreate_unfold _ mapHash cache brt src1).
  rewrite (findOrCreate_unfold _ mapHash cache brt src2).
  apply bind_ext.
  intros x s'. symmetry. now apply findOrCreate_tail_hash.
Qed.

Lemma equal_hash_resolves_to_same_config_witness :
  (fun _ : string => "h") "uri: a" = (fun _ : string => "h") "uri: b"
  /\ faults Ex.empty_store = []
  /\ exists s2,
       findOrCreate (fun _ : string => "h")
         (Build_ResourceConfigDescriptor None
            (Some {| brt_Name := "git" |}) "uri: b")
         (snd (findOrCreate (fun _ : string => "h")
                 (Build_ResourceConfigDescriptor None
                    (Some {| brt_Name := "git" |}) "uri: a")
                 Ex.empty_store))
       = (inr (Build_resourceConfig 10 0 None (Some Ex.git)), s2)
       /\ tables s2
          = tables (snd (findOrCreate (fun _ : string => "h")
                           (Build_ResourceConfigDescriptor None
                              (Some {| brt_Name := "git" |}) "uri: a")
                           Ex.empty_store)).
Proof.
  assert (H1 : findOrCreate (fun _ : string => "h")
                 (Build_ResourceConfigDescriptor None
                    (Some {| brt_Name := "git" |}) "uri: a")
                 Ex.empty_store
               = (inr (Build_resourceConfig 10 0 None (Some Ex.git)),
                  snd (findOrCreate (fun _ : string => "h")
                         (Build_ResourceConfigDescriptor None
                            (Some {| brt_Name := "git" |}) "uri: a")
                         Ex.empty_store)))
    by (vm_compute; reflexivity).
  split; [reflexivity|]. split; [reflexivity|].
  exact (equal_hash_resolves_to_same_config string (fun _ : string => "h")
           None (Some {| brt_Name := "git" |}) "uri: a" "uri: b"
           Ex.empty_store _ _ eq_refl eq_refl H1).
Defined.

(* ================================================================== *)
(** * A refresh is seen by the next resolution *)

Lemma touch_keeps_key t i col pid hash row :
  (col = cfg_resource_cache_id \/ col = cfg_base_resource_type_id) ->
  config_matches col pid hash (touch t i row) = config_matches col pid hash row.
Proof.
  intros Hcol. unfold touch, config_matches.
  destruct (cfg_id row =? i); [|reflexivity].
  destruct Hcol as [-> | ->]; reflexivity.
Qed.

Lemma find_map_touch t i col pid hash l :
  (col = cfg_resource_cache_id \/ col = cfg_base_resource_type_id) ->
  find (config_matches col pid hash) (map (touch t i) l)
  = option_map (touch t i) (find (config_matches col pid hash) l).
Proof.
  intros Hcol. induction l as [|row l IH]; simpl; [reflexivity|].
  rewrite (touch_keeps_key _ _ _ _ _ _ Hcol).
  destruct (config_matches col pid hash row); [reflexivity | exact IH].
Qed.

Lemma parent_column_cases name col :
  parent_column name = Some col ->
  col = cfg_resource_cache_id \/ col = cfg_base_resource_type_id.
Proof.
  unfold parent_column.
  destruct (String.eqb name "resource_cache_id"); [intros H; inversion H; auto|].
  destruct (String.eqb name "base_resource_type_id"); [|discriminate].
  intros H; inversion H; auto.
Qed.

(** X16: Freshness is visible to resolution: on a store that answers every
    statement, after a config created directly by a base resource type has
    been resolved and then refreshed, resolving its descriptor again
    returns the refreshed object, with the same identity and with the time
    of the refresh as last-referenced value, and writes nothing. *)
Theorem refresh_is_seen_by_next_resolution
    Source (mapHash : Source -> string) b src s rc s1 rc' s2 :
  faults s = [] ->
  findOrCreate mapHash (Build_ResourceConfigDescriptor None (Some b) src) s
    = (inr rc, s1) ->
  updateLastReferenced rc s1 = (inr rc', s2) ->
  rc_ID rc' = rc_ID rc
  /\ LastReferenced rc' = now s1
  /\ exists s3,
       findOrCreate mapHash
         (Build_ResourceConfigDescriptor None (Some b) src) s2
       = (inr rc', s3)
       /\ tables s3 = tables s2.
Proof.
  intros Hnil H Hup.
  pose proof (findOrCreate_settles _ mapHash _ _ _ _ Hnil H) as (Hf1 & _).
  pose proof (findOrCreate_frame _ mapHash _ _ _ _ H) as (Hbrt & _).
  (* what the first resolution found or created *)
  rewrite findOrCreate_unfold in H.
  unfold bind at 1, ret at 1, findOrCreate_tail in H.
  unfold bind at 1 in H. unfold bind at 1 in H.
  rewrite (BaseResourceType_Find_quiet _ _ Hnil) in H.
  destruct (lookup_base_resource_type (brt_Name b) (tables s))
    as [used|] eqn:Hl; [|discriminate H].
  cbn -[find] in H. unfold bind at 1 in H. unfold findWithParentID in H.
  rewrite select_config_quiet in H by exact Hnil.
  cbn -[find] in H.
  assert (Hrow : exists row,
             find (config_matches cfg_base_resource_type_id (ID used)
                     (mapHash src)) (resource_configs (tables s1)) = Some row
             /\ rc = Build_resourceConfig (cfg_id row)
                       (cfg_last_referenced row) None (Some used)).
  { destruct (find _ _) as [row|] eqn:Hfind.
    - inversion H; subst. cbn -[find]. eauto.
    - cbn -[find] in H. unfold bind in H.
      rewrite (upsert_config_new "base_resource_type_id" (ID used)
                 (mapHash src)
                 (log_op (OpSelect T_resource_configs)
                    (log_op (OpSelect T_base_resource_types) s))
                 cfg_base_resource_type_id Hnil eq_refl Hfind) in H.
      unfold ret in H. inversion H; subst. cbn -[find].
      eexists. split.
      + apply find_app_none; [exact Hfind|].
        unfold config_matches. cbn.
        now rewrite Z.eqb_refl, String.eqb_refl.
      + reflexivity. }
  clear H. destruct Hrow as (row & Hfind & ->).
  (* the refresh *)
  unfold updateLastReferenced, update_last_referenced, bind in Hup.
  rewrite (stmt_quiet _ _ Hf1) in Hup. cbn -[existsb] in Hup.
  destruct (existsb _ _); [|discriminate Hup].
  unfold ret in Hup. inversion Hup; subst; clear Hup.
  split; [reflexivity|]. split; [reflexivity|].
  (* the second resolution *)
  match goal with
  | |- exists s3, findOrCreate _ _ ?st = _ /\ _ => remember st as s2 eqn:Hs2
  end.
  assert (Hf2 : faults s2 = []) by (subst s2; exact Hf1).
  assert (Hb2 : lookup_base_resource_type (brt_Name b) (tables s2)
                = Some used).
  { rewrite <- Hl. unfold lookup_base_resource_type. subst s2. cbn -[find].
    now rewrite Hbrt. }
  assert (Hfind2 : find (config_matches cfg_base_resource_type_id (ID used)
                           (mapHash src)) (resource_configs (tables s2))
                   = Some (touch (now s1) (cfg_id row) row)).
  { subst s2. cbn -[find touch].
    rewrite find_map_touch by (now right). now rewrite Hfind. }
  clear Hs2.
  rewrite findOrCreate_unfold.
  unfold bind at 1, ret at 1, findOrCreate_tail.
  unfold bind at 1. unfold bind at 1.
  rewrite (BaseResourceType_Find_quiet _ _ Hf2), Hb2.
  unfold ret at 1. unfold bind at 1. unfold findWithParentID.
  rewrite (select_config_quiet "base_resource_type_id" (ID used)
             (mapHash src) (log_op (OpSelect T_base_resource_types) s2) Hf2).
  change (parent_column "base_resource_type_id")
    with (Some cfg_base_resource_type_id).
  cbv beta iota.
  change (resource_configs
            (tables (log_op (OpSelect T_base_resource_types) s2)))
    with (resource_configs (tables s2)).
  rewrite Hfind2. rewrite touch_id.
  rewrite (touch_same _ _ _ eq_refl).
  eexists. split; reflexivity.
Qed.

Lemma refresh_is_seen_by_next_resolution_witness :
  faults Ex.empty_store = []
  /\ LastReferenced (Build_resourceConfig 10 500 None (Some Ex.time)) = 500
  /\ exists s3,
       findOrCreate Ex.hash Ex.time_descriptor
         (snd (updateLastReferenced Ex.time_config
                 (snd (findOrCreate Ex.hash Ex.time_descriptor
                         Ex.empty_store))))
       = (inr (Build_resourceConfig 10 500 None (Some Ex.time)), s3)
       /\ tables s3
          = tables (snd (updateLastReferenced Ex.time_config
                           (snd (findOrCreate Ex.hash Ex.time_descriptor
                                   Ex.empty_store)))).
Proof.
  pose (s1 := snd (findOrCreate Ex.hash Ex.time_descriptor Ex.empty_store)).
  assert (H1 : findOrCreate Ex.hash
                 (Build_ResourceConfigDescriptor None
                    (Some {| brt_Name := "time" |}) "interval: 1m")
                 Ex.empty_store = (inr Ex.time_config, s1))
    by (vm_compute; reflexivity).
  assert (H2 : updateLastReferenced Ex.time_config s1
               = (inr (Build_resourceConfig 10 500 None (Some Ex.time)),
                  snd (updateLastReferenced Ex.time_config s1)))
    by (vm_compute; reflexivity).
  split; [reflexivity|]. split; [reflexivity|].
  exact (proj2 (proj2
    (refresh_is_seen_by_next_resolution string Ex.hash
       {| brt_Name := "time" |} "interval: 1m" Ex.empty_store
       Ex.time_config s1 _ _ eq_refl H1 H2))).
Defined.
